(** * decomment.js: comment stripping ([src/index.js])

    A shallow embedding of [stripCommentsFromCode] and [removeRanges]
    together with the table of default parser plugin sets, and the proofs of
    the properties the specification states about them.

    Conventions of the embedding.
    - A JavaScript string is a [string]; every character stands for one
      code unit, so [String.length] is the [.length] of the source text and
      positions index code units.
    - JavaScript numbers that occur as positions and counters are integers
      ([Z]); no arithmetic of the program leaves the exact range of a double.
    - [@babel/parser] is an external library.  It is a parameter [parse] of
      the model: a function of the source text and the plugin list (the other
      parser options are constants of the call site) that either returns a
      tree or throws.
    - The calls made to the parser are recorded, in order, in the [calls]
      field of a run, so that statements about what is attempted, and when,
      can be made. *)

From Stdlib Require Import ZArith List String Ascii Bool Lia Sorted Permutation.
Import ListNotations.

Open Scope string_scope.
Open Scope Z_scope.

(** ** JavaScript values and strings *)

(** The values that may reach the program where it inspects a type:
    the [code] argument and the [start] / [end] fields of a comment. *)
Inductive JsValue : Type :=
| JsUndefined
| JsNull
| JsBoolean (b : bool)
| JsNumber (n : Z)
| JsString (s : string)
| JsObject.

(** The [typeof] operator. *)
Definition typeof (v : JsValue) : string :=
  match v with
  | JsUndefined => "undefined"
  | JsNull => "object"
  | JsBoolean _ => "boolean"
  | JsNumber _ => "number"
  | JsString _ => "string"
  | JsObject => "object"
  end.

(** Index normalisation of [String.prototype.slice]: a negative index
    counts from the end of the string, and every index is clamped to
    [0 .. len]. *)
Definition relativeIndex (len i : Z) : Z :=
  if i <? 0 then Z.max (len + i) 0 else Z.min i len.

(** [source.slice(from, to)]; [None] is an omitted second argument. *)
Definition slice (s : string) (from : Z) (to : option Z) : string :=
  let len := Z.of_nat (String.length s) in
  let lo := relativeIndex len from in
  let hi := match to with
            | Some e => relativeIndex len e
            | None => len
            end in
  if hi <=? lo then "" else substring (Z.to_nat lo) (Z.to_nat (hi - lo)) s.

(** The rest of [s] from position [n] on. *)
Definition dropN (n : nat) (s : string) : string :=
  substring n (String.length s - n) s.

(** ** Ranges and [removeRanges] *)

Record Range : Type := mkRange { start : Z; end_ : Z }.

(** The three variables of the loop of [removeRanges]. *)
Record EraseState : Type := mkErase {
  cursor : Z;
  removed : Z;
  output : string
}.

(** One iteration of [for (const range of ranges)]. *)
Definition removeStep (source : string) (st : EraseState) (range : Range)
  : EraseState :=
  if start range <? cursor st then st
  else {| cursor := end_ range;
          removed := removed st + (end_ range - start range);
          output := output st ++ slice source (cursor st) (Some (start range)) |}.

Definition removeLoop (source : string) (ranges : list Range) : EraseState :=
  fold_left (removeStep source) ranges
            {| cursor := 0; removed := 0; output := "" |}.

(** [removeRanges(source, ranges)], returning [(output, removed)]. *)
Definition removeRanges (source : string) (ranges : list Range)
  : string * Z :=
  let st := removeLoop source ranges in
  (output st ++ slice source (cursor st) None, removed st).

(** The ranges for which the loop, entered with the given cursor, takes the
    branch that removes text. *)
Fixpoint excised (cur : Z) (ranges : list Range) : list Range :=
  match ranges with
  | [] => []
  | r :: rest =>
      if start r <? cur then excised cur rest
      else r :: excised (end_ r) rest
  end.

Definition span (r : Range) : Z := end_ r - start r.

Definition totalSpan (ranges : list Range) : Z :=
  fold_right (fun r acc => span r + acc) 0 ranges.

Definition covers (r : Range) (i : Z) : bool :=
  (start r <=? i) && (i <? end_ r).

Definition covered (ranges : list Range) (i : Z) : bool :=
  existsb (fun r => covers r i) ranges.

Definition outside (ranges : list Range) (i : Z) : bool :=
  negb (covered ranges i).

(** The characters of [s], the first of which has position [i], whose
    position satisfies [keep]; in their order. *)
Fixpoint keepAt (keep : Z -> bool) (i : Z) (s : string) : string :=
  match s with
  | EmptyString => EmptyString
  | String ch rest =>
      if keep i then String ch (keepAt keep (i + 1) rest)
      else keepAt keep (i + 1) rest
  end.

(** The source text without the characters that lie in one of [ranges]. *)
Definition without (ranges : list Range) (source : string) : string :=
  keepAt (outside ranges) 0 source.

(** A half-open range [start, end) that is not empty. *)
Definition wellFormed (r : Range) : Prop := start r < end_ r.

Definition startsBefore (a b : Range) : Prop := start a <= start b.

Definition disjoint (a b : Range) : Prop :=
  end_ a <= start b \/ end_ b <= start a.

(** ** Parser interface *)

(** A plugin entry is a name, or a name with its options. *)
Inductive Plugin : Type :=
| Name (name : string)
| WithOptions (name : string) (options : list (string * bool)).

(** A comment node, reduced to the two fields the program reads.  The
    fields are values, since the program tests their type; a number is an
    integer position. *)
Record Comment : Type := mkComment {
  commentStart : JsValue;
  commentEnd : JsValue
}.

(** The tree returned by the parser; [comments] is [None] when
    [ast.comments] is not an array. *)
Record Ast : Type := mkAst { comments : option (list Comment) }.

(** What the parser throws; [errorMessage] is [None] when the thrown value
    has no [message]. *)
Record ParserError : Type := mkParserError { errorMessage : option string }.

Inductive ParseResult : Type :=
| Parsed (tree : Ast)
| Threw (error : ParserError).

Definition Parser : Type := string -> list Plugin -> ParseResult.

(** ** Default plugin sets *)

Definition COMMON_PLUGINS : list Plugin :=
  [ Name "classProperties";
    Name "classPrivateProperties";
    Name "classPrivateMethods";
    Name "dynamicImport";
    Name "optionalCatchBinding";
    Name "optionalChaining";
    Name "nullishCoalescingOperator";
    Name "objectRestSpread";
    Name "topLevelAwait";
    Name "throwExpressions";
    Name "numericSeparator";
    Name "importMeta";
    Name "exportDefaultFrom";
    Name "doExpressions";
    Name "functionBind" ].

Definition LANGUAGE_PLUGIN_SETS : list (list Plugin) :=
  [ [Name "jsx"; Name "typescript"];
    [Name "jsx"; Name "flow"; Name "flowComments"];
    [Name "jsx"];
    [] ].

Definition DECORATOR_PLUGINS : list Plugin :=
  [ WithOptions "decorators" [("decoratorsBeforeExport", true)];
    Name "decorators-legacy" ].

(** The two nested loops push one set per pair, then the common set. *)
Definition buildDefaultPluginSets : list (list Plugin) :=
  let sets :=
    fold_left
      (fun sets decoratorPlugin =>
         fold_left
           (fun sets languagePlugins =>
              sets ++ [languagePlugins ++ [decoratorPlugin] ++ COMMON_PLUGINS])%list
           LANGUAGE_PLUGIN_SETS sets)
      DECORATOR_PLUGINS [] in
  (sets ++ [COMMON_PLUGINS])%list.

Definition DEFAULT_PLUGIN_SETS : list (list Plugin) := buildDefaultPluginSets.

(** ** [stripCommentsFromCode] *)

Record ParserOptions : Type := mkOptions {
  filename : option string;
  plugins : option (list Plugin)
}.

Record StripResult : Type := mkResult {
  code : string;
  commentCount : Z;
  removedChars : Z;
  removedRanges : list Range
}.

Inductive Exception : Type :=
| TypeError (message : string)
| Error (message : string) (cause : option ParserError).

Inductive Completion : Type :=
| Return (result : StripResult)
| Throw (exn : Exception).

(** A run of [stripCommentsFromCode]: the plugin lists handed to the parser,
    in call order, and how the function completes. *)
Record Run : Type := mkRun {
  calls : list (list Plugin);
  completion : Completion
}.

(** The variables [ast] and [lastError] of the parse loop, with the record
    of the plugin lists the parser has been called with so far. *)
Record ParseState : Type := mkParseState {
  ast : option Ast;
  lastError : option ParserError;
  attempted : list (list Plugin)
}.

(** [.map(({start, end}) => ({start, end}))] followed by the filter
    [typeof start === 'number' && typeof end === 'number' && start < end]:
    a comment yields a range exactly when it passes the filter. *)
Definition toRange (c : Comment) : list Range :=
  match commentStart c, commentEnd c with
  | JsNumber s, JsNumber e => if s <? e then [mkRange s e] else []
  | _, _ => []
  end.

(** A comment as the data model has it: numeric positions, [start < end]. *)
Definition properComment (c : Comment) : Prop :=
  exists s e,
    commentStart c = JsNumber s /\ commentEnd c = JsNumber e /\ s < e.

Definition validRanges (cs : list Comment) : list Range :=
  flat_map toRange cs.

(** [.sort((a, b) => a.start - b.start)]: the comparator is a total
    preorder on integer starts and the sort is stable, so the result is the
    stable ascending arrangement, computed here by insertion. *)
Fixpoint insertByStart (r : Range) (sorted : list Range) : list Range :=
  match sorted with
  | [] => [r]
  | x :: rest =>
      if start r <=? start x then r :: x :: rest
      else x :: insertByStart r rest
  end.

Definition sortByStart (ranges : list Range) : list Range :=
  fold_right insertByStart [] ranges.

Definition normalizeRanges (cs : list Comment) : list Range :=
  sortByStart (validRanges cs).

Definition commentsOf (tree : Ast) : list Comment :=
  match comments tree with
  | Some cs => cs
  | None => []
  end.

(** [lastError?.message ?? 'Unknown parser error'] *)
Definition messageOf (e : option ParserError) : string :=
  match e with
  | Some err =>
      match errorMessage err with
      | Some m => m
      | None => "Unknown parser error"
      end
  | None => "Unknown parser error"
  end.

(** [parserOptions.filename ?? 'unknown'] *)
Definition fileLabel (parserOptions : ParserOptions) : string :=
  match filename parserOptions with
  | Some f => f
  | None => "unknown"
  end.

(** The default search order in the words of the specification: for each
    decorator convention, the four language-extension combinations, each
    with the common extensions; then the common extensions alone. *)
Module SpecOrder.

Definition modernDecorators : Plugin :=
  WithOptions "decorators" [("decoratorsBeforeExport", true)].
Definition legacyDecorators : Plugin := Name "decorators-legacy".
Definition markup : Plugin := Name "jsx".
Definition typeAnnotations : Plugin := Name "typescript".
Definition alternateTypes : Plugin := Name "flow".
Definition alternateTypesComments : Plugin := Name "flowComments".

Definition attempt (language : list Plugin) (decorators : Plugin)
  : list Plugin :=
  (language ++ decorators :: COMMON_PLUGINS)%list.

Definition searchOrder : list (list Plugin) :=
  [ attempt [markup; typeAnnotations] modernDecorators;
    attempt [markup; alternateTypes; alternateTypesComments]
            modernDecorators;
    attempt [markup] modernDecorators;
    attempt [] modernDecorators;
    attempt [markup; typeAnnotations] legacyDecorators;
    attempt [markup; alternateTypes; alternateTypesComments]
            legacyDecorators;
    attempt [markup] legacyDecorators;
    attempt [] legacyDecorators;
    COMMON_PLUGINS ].

End SpecOrder.

Section Strip.

Variable parse : Parser.

(** The parser throws on [source] under [plugins]. *)
Definition fails (source : string) (plugins : list Plugin) : Prop :=
  exists error, parse source plugins = Threw error.

(** The value of [lastError] after the parser threw on every set of
    [pluginSets]. *)
Definition lastThrown (source : string) (pluginSets : list (list Plugin))
           (init : option ParserError) : option ParserError :=
  fold_left
    (fun acc plugins =>
       match parse source plugins with
       | Threw error => Some error
       | Parsed _ => acc
       end)
    pluginSets init.

(** The loop [for (const plugins of pluginSets)] with its [try] / [catch]
    and its [break]. *)
Fixpoint tryPluginSets (source : string) (pluginSets : list (list Plugin))
         (st : ParseState) : ParseState :=
  match pluginSets with
  | [] => st
  | plugins :: rest =>
      let tried := (attempted st ++ [plugins])%list in
      match parse source plugins with
      | Parsed tree =>
          {| ast := Some tree; lastError := lastError st;
             attempted := tried |}
      | Threw error =>
          tryPluginSets source rest
            {| ast := ast st; lastError := Some error;
               attempted := tried |}
      end
  end.

Definition pluginSetsOf (parserOptions : ParserOptions)
  : list (list Plugin) :=
  match plugins parserOptions with
  | Some customPlugins => [customPlugins]
  | None => DEFAULT_PLUGIN_SETS
  end.

Definition resolve (source : string) (parserOptions : ParserOptions)
  : ParseState :=
  tryPluginSets source (pluginSetsOf parserOptions)
    {| ast := None; lastError := None; attempted := [] |}.

(** The first branch is the case [typeof code === 'string']; every other
    value takes the [throw new TypeError] of the first statement. *)
Definition stripCommentsFromCode (input : JsValue)
           (parserOptions : ParserOptions) : Run :=
  match input with
  | JsString source =>
      let name := fileLabel parserOptions in
      let st := resolve source parserOptions in
      match ast st with
      | None =>
          {| calls := attempted st;
             completion :=
               Throw (Error ("Failed to parse " ++ name ++ ": "
                               ++ messageOf (lastError st))
                            (lastError st)) |}
      | Some tree =>
          match commentsOf tree with
          | [] =>
              {| calls := attempted st;
                 completion :=
                   Return {| code := source; commentCount := 0;
                             removedChars := 0; removedRanges := [] |} |}
          | _ :: _ =>
              let ranges := normalizeRanges (commentsOf tree) in
              let '(out, rem) := removeRanges source ranges in
              {| calls := attempted st;
                 completion :=
                   Return {| code := out;
                             commentCount := Z.of_nat (List.length ranges);
                             removedChars := rem;
                             removedRanges := ranges |} |}
          end
      end
  | _ =>
      {| calls := [];
         completion := Throw (TypeError "Code must be a string.") |}
  end.

End Strip.

(** ** A small parser to run the model on

    It recognises line comments and block comments (and nothing else of the
    language), rejects an unterminated block comment, and rejects a source
    containing [<] unless the plugin list names [jsx]. *)
Module Demo.

Inductive Mode : Type :=
| InCode
| InLine (from : Z)
| InBlock (from : Z).

Definition comment (s e : Z) : Comment :=
  {| commentStart := JsNumber s; commentEnd := JsNumber e |}.

Fixpoint scan (s : string) (pos : Z) (mode : Mode)
  : option (list Comment) :=
  match s with
  | EmptyString =>
      match mode with
      | InCode => Some []
      | InLine from => Some [comment from pos]
      | InBlock _ => None
      end
  | String ch rest =>
      match mode with
      | InCode =>
          match ch, rest with
          | "/"%char, String "/"%char rest' =>
              scan rest' (pos + 2) (InLine pos)
          | "/"%char, String "*"%char rest' =>
              scan rest' (pos + 2) (InBlock pos)
          | _, _ => scan rest (pos + 1) InCode
          end
      | InLine from =>
          if Ascii.eqb ch "010"%char
          then option_map (cons (comment from pos))
                          (scan rest (pos + 1) InCode)
          else scan rest (pos + 1) (InLine from)
      | InBlock from =>
          match ch, rest with
          | "*"%char, String "/"%char rest' =>
              option_map (cons (comment from (pos + 2)))
                         (scan rest' (pos + 2) InCode)
          | _, _ => scan rest (pos + 1) (InBlock from)
          end
      end
  end.

Definition isNamed (name : string) (p : Plugin) : bool :=
  match p with
  | Name n => String.eqb n name
  | WithOptions n _ => String.eqb n name
  end.

Definition parse : Parser :=
  fun source plugins =>
    match String.index 0 "<" source, existsb (isNamed "jsx") plugins with
    | Some _, false =>
        Threw {| errorMessage := Some "Unexpected token" |}
    | _, _ =>
        match scan source 0 InCode with
        | Some cs => Parsed {| comments := Some cs |}
        | None => Threw {| errorMessage := Some "Unterminated comment" |}
        end
    end.

(** A parser that answers every call with the same comment list. *)
Definition fixed (cs : list Comment) : Parser :=
  fun _ _ => Parsed {| comments := Some cs |}.

(** A parser that throws a value without [message] on every call. *)
Definition silent : Parser :=
  fun _ _ => Threw {| errorMessage := None |}.

Definition noOptions : ParserOptions :=
  {| filename := None; plugins := None |}.

Definition named (f : string) : ParserOptions :=
  {| filename := Some f; plugins := None |}.

End Demo.

(** Inputs and results used to run the statements below. *)
Module Runs.

Definition sample : string := "a /* b */ c // d".

Definition sampleResult : StripResult :=
  {| code := "a  c ";
     commentCount := 2;
     removedChars := 11;
     removedRanges := [mkRange 2 9; mkRange 12 16] |}.

(** Rejected under every default set: with [jsx] for the open block
    comment, without it for the [<]. *)
Definition broken : string := "<a /* b".

Definition digits : string := "0123456789".

Definition overlapping : list Range :=
  [mkRange 1 4; mkRange 2 6; mkRange 7 20].

End Runs.

(** * The file layer: [stripPath] and its helpers

    [fs/promises] and [path] are libraries of the platform.  The file system
    is a parameter: a type of worlds with the five operations the program
    calls, the reading ones as functions of the world, the writing ones
    returning the next world, each able to fail with an error object.  The
    functions of [path] are a second parameter.  Every [await] of the source
    is sequential, so the asynchronous functions are state-passing
    functions; a thrown value ends them.  The loop of [gatherFiles] runs on
    fuel. *)

(** ** String methods *)

(** White space of [String.prototype.trim] among the code units below 256:
    TAB, LF, VT, FF, CR, SP and NBSP. *)
Definition isWhiteSpace (c : ascii) : bool :=
  let n := nat_of_ascii c in
  ((9 <=? n) && (n <=? 13) || (n =? 32) || (n =? 160))%nat.

(** [toLowerCase] on one code unit below 256: the letters A-Z and the
    capital letters of Latin-1 (all of C0-DE but the sign D7). *)
Definition lowerUnit (c : ascii) : ascii :=
  let n := nat_of_ascii c in
  if ((65 <=? n) && (n <=? 90)
      || (192 <=? n) && (n <=? 222) && negb (n =? 215))%nat
  then ascii_of_nat (n + 32)
  else c.

Definition isUpperUnit (c : ascii) : bool :=
  negb (Ascii.eqb (lowerUnit c) c).

Fixpoint toLowerCase (s : string) : string :=
  match s with
  | EmptyString => EmptyString
  | String c rest => String (lowerUnit c) (toLowerCase rest)
  end.

(** The string has a letter that [toLowerCase] changes. *)
Fixpoint hasUpper (s : string) : bool :=
  match s with
  | EmptyString => false
  | String c rest => isUpperUnit c || hasUpper rest
  end.

Fixpoint trimStart (s : string) : string :=
  match s with
  | EmptyString => EmptyString
  | String c rest => if isWhiteSpace c then trimStart rest else s
  end.

Fixpoint trimEnd (s : string) : string :=
  match s with
  | EmptyString => EmptyString
  | String c rest =>
      match trimEnd rest with
      | EmptyString => if isWhiteSpace c then EmptyString
                       else String c EmptyString
      | kept => String c kept
      end
  end.

Definition trim (s : string) : string := trimEnd (trimStart s).

(** [s.split(',')] *)
Fixpoint splitComma (s : string) : list string :=
  match s with
  | EmptyString => [EmptyString]
  | String c rest =>
      if Ascii.eqb c ","%char then EmptyString :: splitComma rest
      else match splitComma rest with
           | piece :: pieces => String c piece :: pieces
           | [] => [String c EmptyString]
           end
  end.

(** [ext.startsWith('.')] *)
Definition startsWithDot (ext : string) : bool :=
  match ext with
  | String c _ => Ascii.eqb c "."%char
  | EmptyString => false
  end.

(** Truthiness of a string: [Boolean(s)]. *)
Definition nonEmpty (s : string) : bool :=
  match s with
  | EmptyString => false
  | String _ _ => true
  end.

(** An optional string where the program tests it for truthiness: the
    string when it is present and not empty. *)
Definition truthy (s : option string) : option string :=
  match s with
  | Some v => if nonEmpty v then Some v else None
  | None => None
  end.

(** ** Sets of strings *)

(** A [Set] of strings, in insertion order. *)
Definition StringSet : Type := list string.

Definition has (set : StringSet) (x : string) : bool :=
  existsb (String.eqb x) set.

(** [new Set(values)] *)
Definition newSet (values : list string) : StringSet :=
  fold_left (fun set x => if has set x then set else (set ++ [x])%list)
            values [].

(** ** Extensions *)

Definition SUPPORTED_EXTENSIONS : list string :=
  [".js"; ".cjs"; ".mjs"; ".jsx"; ".ts"; ".tsx"; ".cts"; ".mts"].

(** The [extensions] option: absent, a [Set], an array of strings, or a
    string (the comma-separated list of the command line). *)
Inductive Extensions : Type :=
| NoExtensions
| ExtensionSet (set : StringSet)
| ExtensionArray (items : list string)
| ExtensionList (text : string).

(** The three steps [.map(trim, lower)], [.filter(Boolean)],
    [.map(add the dot)]. *)
Definition normalizeExtension (ext : string) : string :=
  toLowerCase (trim ext).

Definition withDot (ext : string) : string :=
  if startsWithDot ext then ext else "." ++ ext.

Definition normalizeExtensions (items : list string) : list string :=
  map withDot (filter nonEmpty (map normalizeExtension items)).

Definition buildExtensionSet (extensions : Extensions)
  : Exception + StringSet :=
  let normalize items :=
    match normalizeExtensions items with
    | [] =>
        inl (Error "At least one extension must be provided when overriding supported extensions."
                   None)
    | normalized => inr (newSet normalized)
    end in
  match extensions with
  | NoExtensions => inr (newSet SUPPORTED_EXTENSIONS)
  | ExtensionSet set => inr set
  | ExtensionArray items => normalize items
  | ExtensionList text =>
      if nonEmpty text then normalize (splitComma text)
      else inr (newSet SUPPORTED_EXTENSIONS)
  end.

(** An entry in the form the set holds it: it begins with a dot and is
    left as it is by trimming and by lower-casing. *)
Definition normalEntry (ext : string) : Prop :=
  startsWithDot ext = true /\ normalizeExtension ext = ext.

(** An entry that trimming leaves empty. *)
Definition blank (ext : string) : Prop := trim ext = "".

(** ** Platform interfaces *)

Record FsError : Type := mkFsError {
  errorCode : string;
  fsMessage : string
}.

Module Stats.
Record t : Type := make { isDirectory : bool; isFile : bool }.
End Stats.

Module Dirent.
Record t : Type := make {
  name : string;
  isSymbolicLink : bool;
  isDirectory : bool;
  isFile : bool
}.
End Dirent.

(** The part of [fs/promises] the program uses.  [mkdir] is the call with
    [{ recursive: true }]; [readdir] the call with
    [{ withFileTypes: true }]; files are text. *)
Module Fs.
Record t : Type := make {
  World : Type;
  stat : World -> string -> FsError + Stats.t;
  readFile : World -> string -> FsError + string;
  readdir : World -> string -> FsError + list Dirent.t;
  mkdir : World -> string -> FsError + World;
  writeFile : World -> string -> string -> FsError + World
}.
End Fs.

(** The part of [path] the program uses. *)
Module Path.
Record t : Type := make {
  resolve : string -> string;
  join : string -> string -> string;
  relative : string -> string -> string;
  dirname : string -> string;
  basename : string -> string;
  extname : string -> string
}.
End Path.

(** ** Summaries *)

Module FileResult.
Record t : Type := make {
  inputPath : string;
  outputPath : string;
  commentCount : Z;
  removedChars : Z;
  removedRanges : list Range;
  changed : bool;
  wroteFile : bool
}.
End FileResult.

Record Summary : Type := mkSummary {
  target : string;
  outputBase : option string;
  filesScanned : Z;
  filesChanged : Z;
  commentsRemoved : Z;
  bytesRemoved : Z;
  results : list FileResult.t
}.

Definition createEmptySummary (target : string) (outputBase : option string)
  : Summary :=
  {| target := target;
     outputBase := outputBase;
     filesScanned := 0;
     filesChanged := 0;
     commentsRemoved := 0;
     bytesRemoved := 0;
     results := [] |}.

(** The totals of a summary agree with its list of results. *)
Definition countChanged (rs : list FileResult.t) : Z :=
  Z.of_nat (List.length
              (filter (fun r => 0 <? FileResult.commentCount r) rs)).

Definition sumOver (f : FileResult.t -> Z) (rs : list FileResult.t) : Z :=
  fold_right (fun r acc => f r + acc) 0 rs.

Record consistent (s : Summary) : Prop := mkConsistent {
  scanned_results : filesScanned s = Z.of_nat (List.length (results s));
  changed_results : filesChanged s = countChanged (results s);
  comments_results :
    commentsRemoved s = sumOver FileResult.commentCount (results s);
  bytes_results :
    bytesRemoved s = sumOver FileResult.removedChars (results s)
}.

(** No result of the summary reports a negative count. *)
Definition nonnegative (s : Summary) : Prop :=
  Forall (fun r => 0 <= FileResult.commentCount r
                   /\ 0 <= FileResult.removedChars r)
         (results s).

(** [stripPath]'s options, with the defaults of the destructuring
    ([false] for the two flags). *)
Record StripOptions : Type := mkStripOptions {
  dryRun : bool;
  overwrite : bool;
  outPath : option string;
  extensions : Extensions;
  parserPlugins : option (list Plugin)
}.

(** What an asynchronous function of the file layer can throw: an error it
    creates (or one of [stripCommentsFromCode]), or an error object of
    [fs]. *)
Inductive Failure : Type :=
| Js (exn : Exception)
| Fs (error : FsError).

Inductive Outcome (A : Type) : Type :=
| Done (value : A)
| Raised (failure : Failure)
| OutOfFuel.

Arguments Done {A} value.
Arguments Raised {A} failure.
Arguments OutOfFuel {A}.

Section FileLayer.

Variable fsys : Fs.t.
Variable path : Path.t.
Variable parse : Parser.

(** The state the functions act on: the file system and the summary
    object they share. *)
Record State : Type := mkState {
  world : Fs.World fsys;
  summary : Summary
}.

Definition M (A : Type) : Type := State -> Outcome A * State.

Definition ret {A : Type} (a : A) : M A := fun st => (Done a, st).

Definition raise {A : Type} (f : Failure) : M A := fun st => (Raised f, st).

Definition throwError {A : Type} (message : string) : M A :=
  raise (Js (Error message None)).

Definition bind {A B : Type} (m : M A) (k : A -> M B) : M B :=
  fun st =>
    match m st with
    | (Done a, st') => k a st'
    | (Raised f, st') => (Raised f, st')
    | (OutOfFuel, st') => (OutOfFuel, st')
    end.

Notation "x <- m ;; k" := (bind m (fun x => k))
  (at level 61, m at next level, right associativity).
Notation "m ;; k" := (bind m (fun _ => k))
  (at level 61, right associativity).

(** A reading operation of [fs]. *)
Definition reading {A : Type} (op : Fs.World fsys -> FsError + A) : M A :=
  fun st =>
    match op (world st) with
    | inr a => (Done a, st)
    | inl e => (Raised (Fs e), st)
    end.

(** A writing operation of [fs]. *)
Definition writing (op : Fs.World fsys -> FsError + Fs.World fsys) : M unit :=
  fun st =>
    match op (world st) with
    | inr w => (Done tt, {| world := w; summary := summary st |})
    | inl e => (Raised (Fs e), st)
    end.

Definition updateSummary (f : Summary -> Summary) : M unit :=
  fun st => (Done tt, {| world := world st; summary := f (summary st) |}).

(** A computation that leaves the state as it finds it. *)
Definition keepsState {A : Type} (m : M A) : Prop :=
  forall st, snd (m st) = st.

(** A computation that leaves the file system as it finds it. *)
Definition keepsWorld {A : Type} (m : M A) : Prop :=
  forall st, world (snd (m st)) = world st.

Definition hasSupportedExtension (filePath : string)
           (extensionSet : StringSet) : bool :=
  let ext := toLowerCase (Path.extname path filePath) in
  has extensionSet ext.

Definition ensureDir (dirPath : string) : M unit :=
  writing (fun w => Fs.mkdir fsys w dirPath).

Definition statIfExists (fsPath : string) : M (option Stats.t) :=
  fun st =>
    match Fs.stat fsys (world st) fsPath with
    | inr stats => (Done (Some stats), st)
    | inl error =>
        if String.eqb (errorCode error) "ENOENT" then (Done None, st)
        else (Raised (Fs error), st)
    end.

Definition pathExists (fsPath : string) : M bool :=
  found <- statIfExists fsPath ;;
  ret (match found with Some _ => true | None => false end).

Definition resolveOutputForFile (filePath : string)
           (outPath : option string) : M (string * bool) :=
  match truthy outPath with
  | None => ret (filePath, false)
  | Some out =>
      let resolvedOut := Path.resolve path out in
      outStats <- statIfExists resolvedOut ;;
      let treatAsDirectory :=
        match outStats with
        | Some stats => Stats.isDirectory stats
        | None => String.eqb (Path.extname path resolvedOut) ""
        end in
      if treatAsDirectory
      then ret (Path.join path resolvedOut (Path.basename path filePath), true)
      else ret (resolvedOut, false)
  end.

(** The body of [for (const entry of entries)] in [gatherFiles], on the
    pair of the queue and the collected files. *)
Definition scanEntry (current : string) (extensionSet : StringSet)
           (acc : list string * list string) (entry : Dirent.t)
  : list string * list string :=
  let '(queue, collected) := acc in
  let resolved := Path.join path current (Dirent.name entry) in
  if Dirent.isSymbolicLink entry then (queue, collected)
  else if Dirent.isDirectory entry then ((queue ++ [resolved])%list, collected)
  else if Dirent.isFile entry
          && hasSupportedExtension (Dirent.name entry) extensionSet
       then (queue, (collected ++ [resolved])%list)
       else (queue, collected).

(** What one directory listing adds to the queue and to the collected
    files. *)
Definition subdirectories (current : string) (entries : list Dirent.t)
  : list string :=
  map (fun e => Path.join path current (Dirent.name e))
      (filter (fun e => negb (Dirent.isSymbolicLink e)
                        && Dirent.isDirectory e)
              entries).

Definition supportedFiles (current : string) (extensionSet : StringSet)
           (entries : list Dirent.t) : list string :=
  map (fun e => Path.join path current (Dirent.name e))
      (filter (fun e => negb (Dirent.isSymbolicLink e)
                        && negb (Dirent.isDirectory e)
                        && Dirent.isFile e
                        && hasSupportedExtension (Dirent.name e)
                                                 extensionSet)
              entries).

(** [under w set dir f]: in the world [w], [f] is the path of a regular
    file with a supported extension, listed in [dir] or in a directory
    reached from [dir] through directory entries that are not symbolic
    links. *)
Inductive under (w : Fs.World fsys) (extensionSet : StringSet)
  : string -> string -> Prop :=
| under_here (dir : string) (entries : list Dirent.t) (f : string) :
    Fs.readdir fsys w dir = inr entries ->
    In f (supportedFiles dir extensionSet entries) ->
    under w extensionSet dir f
| under_below (dir : string) (entries : list Dirent.t) (sub f : string) :
    Fs.readdir fsys w dir = inr entries ->
    In sub (subdirectories dir entries) ->
    under w extensionSet sub f ->
    under w extensionSet dir f.

(** [while (queue.length)]: [queue.pop()] takes the last element. *)
Fixpoint gatherLoop (fuel : nat) (extensionSet : StringSet)
         (queue collected : list string) : M (list string) :=
  match fuel with
  | O => fun st => (OutOfFuel, st)
  | S fuel' =>
      match rev queue with
      | [] => ret collected
      | current :: below =>
          entries <- reading (fun w => Fs.readdir fsys w current) ;;
          let '(queue', collected') :=
            fold_left (scanEntry current extensionSet) entries
                      (rev below, collected) in
          gatherLoop fuel' extensionSet queue' collected'
      end
  end.

Definition gatherFiles (fuel : nat) (dirPath : string)
           (extensionSet : StringSet) : M (list string) :=
  gatherLoop fuel extensionSet [dirPath] [].

(** The files [gatherFiles] returns in the world [w]. *)
Definition filesUnder (fuel : nat) (dirPath : string)
           (extensionSet : StringSet) (w : Fs.World fsys)
  : Outcome (list string) :=
  fst (gatherFiles fuel dirPath extensionSet
                   {| world := w;
                      summary := createEmptySummary dirPath None |}).

Definition recordResult (r : StripResult) (inputPath destPath : string)
           (changed willWrite : bool) (s : Summary) : Summary :=
  {| target := target s;
     outputBase := outputBase s;
     filesScanned := filesScanned s;
     filesChanged := filesChanged s;
     commentsRemoved := commentsRemoved s;
     bytesRemoved := bytesRemoved s;
     results :=
       (results s
        ++ [ {| FileResult.inputPath := inputPath;
                FileResult.outputPath := destPath;
                FileResult.commentCount := commentCount r;
                FileResult.removedChars := removedChars r;
                FileResult.removedRanges := removedRanges r;
                FileResult.changed := changed;
                FileResult.wroteFile := willWrite |} ])%list |}.

Definition countScanned (s : Summary) : Summary :=
  {| target := target s;
     outputBase := outputBase s;
     filesScanned := filesScanned s + 1;
     filesChanged := filesChanged s;
     commentsRemoved := commentsRemoved s;
     bytesRemoved := bytesRemoved s;
     results := results s |}.

Definition countRemoved (r : StripResult) (s : Summary) : Summary :=
  if 0 <? commentCount r
  then {| target := target s;
          outputBase := outputBase s;
          filesScanned := filesScanned s;
          filesChanged := filesChanged s + 1;
          commentsRemoved := commentsRemoved s + commentCount r;
          bytesRemoved := bytesRemoved s + removedChars r;
          results := results s |}
  else s.

(** The call of [stripCommentsFromCode] inside [processFile]. *)
Definition strip (source inputPath : string)
           (parserPlugins : option (list Plugin)) : M StripResult :=
  match completion (stripCommentsFromCode parse (JsString source)
                      {| filename := Some inputPath;
                         plugins := parserPlugins |}) with
  | Return r => ret r
  | Throw exn => raise (Js exn)
  end.

Definition processFile (inputPath : string) (outputPath : option string)
           (dryRun overwrite : bool) (parserPlugins : option (list Plugin))
           (alwaysWrite : bool) : M unit :=
  updateSummary countScanned ;;
  source <- reading (fun w => Fs.readFile fsys w inputPath) ;;
  r <- strip source inputPath parserPlugins ;;
  let changed := negb (String.eqb (code r) source) in
  let destPath := match outputPath with
                  | Some p => p
                  | None => inputPath
                  end in
  let sameDestination :=
    String.eqb (Path.resolve path destPath) (Path.resolve path inputPath) in
  let willWrite :=
    negb dryRun && (negb sameDestination || changed || alwaysWrite) in
  (if willWrite then
     destinationExists <- pathExists destPath ;;
     (if destinationExists && negb overwrite then
        if sameDestination
        then throwError ("Refusing to overwrite " ++ destPath
                         ++ ". Pass the overwrite option when calling the API or CLI.")
        else throwError ("Destination file already exists: " ++ destPath
                         ++ ". Pass --overwrite to replace it.")
      else ret tt) ;;
     ensureDir (Path.dirname path destPath) ;;
     writing (fun w => Fs.writeFile fsys w destPath (code r))
   else ret tt) ;;
  updateSummary (countRemoved r) ;;
  updateSummary (recordResult r inputPath destPath changed willWrite).

(** The loop [for (const filePath of files)] of [processDirectory]. *)
Fixpoint processFiles (dirPath : string) (outputBase : option string)
         (dryRun overwrite : bool) (parserPlugins : option (list Plugin))
         (files : list string) : M unit :=
  match files with
  | [] => ret tt
  | filePath :: rest =>
      let rel := Path.relative path dirPath filePath in
      let destination :=
        match truthy outputBase with
        | Some base => Path.join path base rel
        | None => filePath
        end in
      let alwaysWrite :=
        match truthy outputBase with
        | Some _ =>
            negb (String.eqb (Path.resolve path destination)
                             (Path.resolve path filePath))
        | None => false
        end in
      processFile filePath (Some destination) dryRun overwrite
                  parserPlugins alwaysWrite ;;
      processFiles dirPath outputBase dryRun overwrite parserPlugins rest
  end.

Definition processDirectory (fuel : nat) (dirPath : string)
           (outputBase : option string) (dryRun overwrite : bool)
           (extensionSet : StringSet)
           (parserPlugins : option (list Plugin)) : M unit :=
  match truthy outputBase with
  | Some base =>
      existing <- statIfExists base ;;
      match existing with
      | Some stats =>
          if negb (Stats.isDirectory stats)
          then throwError "Output path must be a directory when processing a directory."
          else ret tt
      | None => ret tt
      end
  | None => ret tt
  end ;;
  files <- gatherFiles fuel dirPath extensionSet ;;
  processFiles dirPath outputBase dryRun overwrite parserPlugins files.

(** [stripPath(targetPath, options)] started in the world [w]: how it
    completes, with the summary it returns, and the world it leaves. *)
Definition stripPath (fuel : nat) (targetPath : option string)
           (options : StripOptions) (w : Fs.World fsys)
  : Outcome Summary * Fs.World fsys :=
  match truthy targetPath with
  | None =>
      (Raised (Js (Error "A file or directory path is required." None)), w)
  | Some targetPath =>
      if negb (dryRun options) && negb (overwrite options)
         && match truthy (outPath options) with
            | Some _ => false
            | None => true
            end
      then (Raised (Js (Error "Refusing to modify files. Pass --overwrite or provide an output path, or add --dry-run."
                              None)), w)
      else
        let resolvedTarget := Path.resolve path targetPath in
        match Fs.stat fsys w resolvedTarget with
        | inl error =>
            if String.eqb (errorCode error) "ENOENT"
            then (Raised (Js (Error ("Path not found: " ++ resolvedTarget)
                                    None)), w)
            else (Raised (Fs error), w)
        | inr stats =>
            match buildExtensionSet (extensions options) with
            | inl exn => (Raised (Js exn), w)
            | inr extensionSet =>
                let outputBase :=
                  match truthy (outPath options) with
                  | Some out => Some (Path.resolve path out)
                  | None => None
                  end in
                let initial :=
                  {| world := w;
                     summary :=
                       createEmptySummary resolvedTarget outputBase |} in
                let body : M unit :=
                  if Stats.isDirectory stats then
                    processDirectory fuel resolvedTarget outputBase
                                     (dryRun options) (overwrite options)
                                     extensionSet (parserPlugins options)
                  else if Stats.isFile stats then
                    if negb (hasSupportedExtension resolvedTarget
                                                   extensionSet)
                    then throwError ("Unsupported file extension for "
                                     ++ resolvedTarget
                                     ++ ". Pass --extensions to override.")
                    else
                      outInfo <- resolveOutputForFile resolvedTarget
                                                      outputBase ;;
                      processFile resolvedTarget (Some (fst outInfo))
                                  (dryRun options) (overwrite options)
                                  (parserPlugins options) (snd outInfo)
                  else throwError ("Path is neither a file nor a directory: "
                                   ++ resolvedTarget) in
                match body initial with
                | (Done _, st) => (Done (summary st), world st)
                | (Raised f, st) => (Raised f, world st)
                | (OutOfFuel, st) => (OutOfFuel, world st)
                end
            end
        end
  end.

End FileLayer.

(** ** The totals of the command line ([combineSummaries]) *)

Module Totals.
Record t : Type := make {
  filesScanned : Z;
  filesChanged : Z;
  commentsRemoved : Z;
  bytesRemoved : Z
}.
End Totals.

Definition combineSummaries (summaries : list Summary) : Totals.t :=
  fold_left
    (fun acc s =>
       {| Totals.filesScanned := Totals.filesScanned acc + filesScanned s;
          Totals.filesChanged := Totals.filesChanged acc + filesChanged s;
          Totals.commentsRemoved :=
            Totals.commentsRemoved acc + commentsRemoved s;
          Totals.bytesRemoved := Totals.bytesRemoved acc + bytesRemoved s |})
    summaries
    {| Totals.filesScanned := 0; Totals.filesChanged := 0;
       Totals.commentsRemoved := 0; Totals.bytesRemoved := 0 |}.

(** ** A small file system to run the file layer on

    Paths are absolute and already resolved; a world is a list of nodes by
    path, the first entry for a path being the current one. *)
Module DemoFs.

Inductive Node : Type :=
| FileNode (content : string)
| DirNode (entries : list Dirent.t).

Definition World : Type := list (string * Node).

Fixpoint lookup (w : World) (p : string) : option Node :=
  match w with
  | [] => None
  | (q, node) :: rest => if String.eqb p q then Some node else lookup rest p
  end.

Definition failure (code : string) : FsError :=
  {| errorCode := code; fsMessage := code |}.

Definition stat (w : World) (p : string) : FsError + Stats.t :=
  match lookup w p with
  | Some (FileNode _) =>
      inr {| Stats.isDirectory := false; Stats.isFile := true |}
  | Some (DirNode _) =>
      inr {| Stats.isDirectory := true; Stats.isFile := false |}
  | None => inl (failure "ENOENT")
  end.

Definition readFile (w : World) (p : string) : FsError + string :=
  match lookup w p with
  | Some (FileNode content) => inr content
  | Some (DirNode _) => inl (failure "EISDIR")
  | None => inl (failure "ENOENT")
  end.

Definition readdir (w : World) (p : string) : FsError + list Dirent.t :=
  match lookup w p with
  | Some (DirNode entries) => inr entries
  | Some (FileNode _) => inl (failure "ENOTDIR")
  | None => inl (failure "ENOENT")
  end.

Definition mkdir (w : World) (p : string) : FsError + World :=
  match lookup w p with
  | Some (DirNode _) => inr w
  | Some (FileNode _) => inl (failure "EEXIST")
  | None => inr ((p, DirNode []) :: w)
  end.

Definition writeFile (w : World) (p content : string) : FsError + World :=
  match lookup w p with
  | Some (DirNode _) => inl (failure "EISDIR")
  | _ => inr ((p, FileNode content) :: w)
  end.

Definition fs : Fs.t :=
  {| Fs.World := World;
     Fs.stat := stat;
     Fs.readFile := readFile;
     Fs.readdir := readdir;
     Fs.mkdir := mkdir;
     Fs.writeFile := writeFile |}.

Definition hasSlash (s : string) : bool :=
  match String.index 0 "/" s with
  | Some _ => true
  | None => false
  end.

Fixpoint basename (s : string) : string :=
  match s with
  | EmptyString => EmptyString
  | String c rest =>
      if hasSlash rest then basename rest
      else if Ascii.eqb c "/"%char then rest else s
  end.

Fixpoint dirname (s : string) : string :=
  match s with
  | EmptyString => EmptyString
  | String c rest =>
      if hasSlash rest then String c (dirname rest) else EmptyString
  end.

Fixpoint extname (s : string) : string :=
  match s with
  | EmptyString => EmptyString
  | String c rest =>
      match extname rest with
      | EmptyString =>
          if Ascii.eqb c "."%char && negb (hasSlash rest) then s
          else EmptyString
      | ext => ext
      end
  end.

Definition path : Path.t :=
  {| Path.resolve := fun p => p;
     Path.join := fun a b => a ++ "/" ++ b;
     Path.relative :=
       fun from to =>
         substring (S (String.length from))
                   (String.length to - S (String.length from)) to;
     Path.dirname := dirname;
     Path.basename := basename;
     Path.extname := extname |}.

Definition file (name : string) : Dirent.t :=
  {| Dirent.name := name; Dirent.isSymbolicLink := false;
     Dirent.isDirectory := false; Dirent.isFile := true |}.

Definition directory (name : string) : Dirent.t :=
  {| Dirent.name := name; Dirent.isSymbolicLink := false;
     Dirent.isDirectory := true; Dirent.isFile := false |}.

Definition link (name : string) : Dirent.t :=
  {| Dirent.name := name; Dirent.isSymbolicLink := true;
     Dirent.isDirectory := false; Dirent.isFile := false |}.

(** A project directory with a source file, a text file, a link, and a
    directory with a source file that has no comment. *)
Definition project : World :=
  [ ("/p", DirNode [file "a.js"; file "notes.txt"; link "elsewhere.js";
                    directory "sub"]);
    ("/p/a.js", FileNode "a /* b */ c // d");
    ("/p/notes.txt", FileNode "// not a source file");
    ("/p/sub", DirNode [file "b.TS"]);
    ("/p/sub/b.TS", FileNode "let x = 1;");
    ("/out", DirNode []);
    ("/broken.js", FileNode Runs.broken) ].

Definition regularFile : Stats.t :=
  {| Stats.isDirectory := false; Stats.isFile := true |}.

Definition aDirectory : Stats.t :=
  {| Stats.isDirectory := true; Stats.isFile := false |}.

Definition unchanged : StripResult :=
  {| code := "let x = 1;"; commentCount := 0; removedChars := 0;
     removedRanges := [] |}.

(** The summary of a run that found two comments in one file. *)
Definition report : Summary :=
  {| target := "/p/a.js";
     outputBase := None;
     filesScanned := 1;
     filesChanged := 1;
     commentsRemoved := 2;
     bytesRemoved := 11;
     results :=
       [ {| FileResult.inputPath := "/p/a.js";
            FileResult.outputPath := "/p/a.js";
            FileResult.commentCount := 2;
            FileResult.removedChars := 11;
            FileResult.removedRanges := [mkRange 2 9; mkRange 12 16];
            FileResult.changed := true;
            FileResult.wroteFile := true |} ] |}.

Definition start : State fs :=
  {| world := (project : Fs.World fs);
     summary := createEmptySummary "/p" None |}.

Definition rank (d : string) : nat :=
  if String.eqb d "/p" then 2 else if String.eqb d "/p/sub" then 1 else 0.

Definition defaults : StripOptions :=
  {| dryRun := false; overwrite := false; outPath := None;
     extensions := NoExtensions; parserPlugins := None |}.

Definition dry : StripOptions :=
  {| dryRun := true; overwrite := false; outPath := None;
     extensions := NoExtensions; parserPlugins := None |}.

Definition inPlace : StripOptions :=
  {| dryRun := false; overwrite := true; outPath := None;
     extensions := NoExtensions; parserPlugins := None |}.

Definition into (out : string) : StripOptions :=
  {| dryRun := false; overwrite := false; outPath := Some out;
     extensions := NoExtensions; parserPlugins := None |}.

End DemoFs.

(** ** A parser with automatic semicolon insertion

    It models the external parser on programs of one-word statements: two
    statements are separated by a semicolon or by a line break, and a line
    break inside a block comment counts as one, as the grammar of the
    language has it.  Two words on one line with neither between them are
    a syntax error.  Comments are found as by [Demo.scan]. *)
Module Asi.

(** Where the scanner is in a statement: at a boundary, inside a word, or
    after a word that still needs its end. *)
Inductive Pending : Type :=
| Fresh
| InWord
| Open.

Definition endWord (p : Pending) : Pending :=
  match p with
  | InWord => Open
  | other => other
  end.

Definition isLineBreak (ch : ascii) : bool := Ascii.eqb ch "010"%char.

Definition isBlank (ch : ascii) : bool :=
  Ascii.eqb ch " "%char || Ascii.eqb ch "009"%char.

Definition found (c : Comment) (r : string + list Comment)
  : string + list Comment :=
  match r with
  | inr cs => inr (c :: cs)
  | inl message => inl message
  end.

Fixpoint scan (s : string) (pos : Z) (mode : Demo.Mode) (pending : Pending)
  : string + list Comment :=
  match s with
  | EmptyString =>
      match mode with
      | Demo.InCode => inr []
      | Demo.InLine from => inr [Demo.comment from pos]
      | Demo.InBlock _ => inl "Unterminated comment."
      end
  | String ch rest =>
      match mode with
      | Demo.InCode =>
          match ch, rest with
          | "/"%char, String "/"%char rest' =>
              scan rest' (pos + 2) (Demo.InLine pos) (endWord pending)
          | "/"%char, String "*"%char rest' =>
              scan rest' (pos + 2) (Demo.InBlock pos) (endWord pending)
          | _, _ =>
              if isLineBreak ch || Ascii.eqb ch ";"%char
              then scan rest (pos + 1) Demo.InCode Fresh
              else if isBlank ch
              then scan rest (pos + 1) Demo.InCode (endWord pending)
              else match pending with
                   | Open => inl "Missing semicolon."
                   | _ => scan rest (pos + 1) Demo.InCode InWord
                   end
          end
      | Demo.InLine from =>
          if isLineBreak ch
          then found (Demo.comment from pos)
                     (scan rest (pos + 1) Demo.InCode Fresh)
          else scan rest (pos + 1) (Demo.InLine from) pending
      | Demo.InBlock from =>
          match ch, rest with
          | "*"%char, String "/"%char rest' =>
              found (Demo.comment from (pos + 2))
                    (scan rest' (pos + 2) Demo.InCode pending)
          | _, _ =>
              scan rest (pos + 1) (Demo.InBlock from)
                   (if isLineBreak ch then Fresh else pending)
          end
      end
  end.

Definition parse : Parser :=
  fun source _ =>
    match scan source 0 Demo.InCode Fresh with
    | inr cs => Parsed {| comments := Some cs |}
    | inl message => Threw {| errorMessage := Some message |}
    end.

(** Two statements whose only separation is the line break inside the
    comment between them. *)
Definition twoStatements : string :=
  "a /*" ++ String "010"%char "*/ c".

(** The same two words once the comment is removed. *)
Definition oneLine : string := "a  c".

Definition firstPass : StripResult :=
  {| code := oneLine; commentCount := 1; removedChars := 5;
     removedRanges := [mkRange 2 7] |}.

(** Two statements that keep their semicolon when the comment goes. *)
Definition separated : string := "a; /* b */ c".

Definition separatedPass : StripResult :=
  {| code := "a;  c"; commentCount := 1; removedChars := 7;
     removedRanges := [mkRange 3 10] |}.

End Asi.

(** * Proofs *)

(** ** Strings *)

Lemma length_append (a b : string) :
  String.length (a ++ b) = (String.length a + String.length b)%nat.
Proof. induction a as [| ch a IHa]; simpl; [reflexivity | now rewrite IHa]. Qed.

Lemma append_assoc (a b c : string) : (a ++ b) ++ c = a ++ (b ++ c).
Proof. induction a as [| ch a IHa]; simpl; [reflexivity | now rewrite IHa]. Qed.

Lemma length_zero_empty (s : string) : String.length s = 0%nat -> s = "".
Proof. destruct s; simpl; [reflexivity | discriminate]. Qed.

Lemma length_substring (s : string) :
  forall n k,
    String.length (substring n k s) = Nat.min k (String.length s - n).
Proof.
  induction s as [| ch s IHs]; intros n k.
  - destruct n, k; reflexivity.
  - destruct n as [| n].
    + destruct k as [| k]; simpl; [reflexivity |].
      rewrite IHs. now rewrite Nat.sub_0_r.
    + simpl. apply IHs.
Qed.

Lemma substring_whole (s : string) : substring 0 (String.length s) s = s.
Proof. induction s as [| ch s IHs]; simpl; [reflexivity | now rewrite IHs]. Qed.

Lemma substring_head_split (s : string) :
  forall k, s = substring 0 k s ++ dropN k s.
Proof.
  unfold dropN.
  induction s as [| ch s IHs]; intros k.
  - destruct k; reflexivity.
  - destruct k as [| k].
    + simpl. now rewrite substring_whole.
    + simpl. f_equal. apply IHs.
Qed.

Lemma dropN_split (s : string) :
  forall n k, dropN n s = substring n k s ++ dropN (n + k) s.
Proof.
  induction s as [| ch s IHs]; intros n k.
  - unfold dropN. destruct n, k; reflexivity.
  - destruct n as [| n].
    + unfold dropN at 1. rewrite Nat.sub_0_r, substring_whole.
      apply substring_head_split.
    + unfold dropN in *. simpl. apply IHs.
Qed.

Lemma length_dropN (s : string) (n : nat) :
  String.length (dropN n s) = (String.length s - n)%nat.
Proof. unfold dropN. rewrite length_substring. lia. Qed.

Lemma substring_truncate (s : string) :
  forall n k k',
    Nat.min k (String.length s - n) = Nat.min k' (String.length s - n) ->
    substring n k s = substring n k' s.
Proof.
  induction s as [| ch s IHs]; intros n k k' Hk.
  - destruct n, k, k'; reflexivity.
  - destruct n as [| n].
    + destruct k as [| k], k' as [| k']; simpl in *; try lia; [reflexivity |].
      f_equal. apply IHs. lia.
    + simpl. apply IHs. exact Hk.
Qed.

Lemma slice_between (s : string) (a b : Z) :
  0 <= a -> a <= b ->
  slice s a (Some b) = substring (Z.to_nat a) (Z.to_nat (b - a)) s.
Proof.
  intros Ha Hab. unfold slice, relativeIndex.
  destruct (Z.ltb_spec a 0); [lia |].
  destruct (Z.ltb_spec b 0); [lia |].
  destruct (Z.leb_spec (Z.min b (Z.of_nat (String.length s)))
                       (Z.min a (Z.of_nat (String.length s)))) as [Hle | Hlt].
  - symmetry. apply length_zero_empty. rewrite length_substring. lia.
  - replace (Z.min a (Z.of_nat (String.length s))) with a by lia.
    apply substring_truncate. lia.
Qed.

Lemma slice_to_end (s : string) (a : Z) :
  0 <= a -> slice s a None = dropN (Z.to_nat a) s.
Proof.
  intros Ha. unfold slice, relativeIndex, dropN.
  destruct (Z.ltb_spec a 0); [lia |].
  set (len := Z.of_nat (String.length s)).
  destruct (Z.leb_spec len (Z.min a len)) as [Hle | Hlt].
  - symmetry. apply length_zero_empty. rewrite length_substring.
    subst len. lia.
  - replace (Z.min a len) with a by lia.
    subst len. f_equal. lia.
Qed.

(** ** Selecting characters by position *)

Lemma keepAt_app (keep : Z -> bool) (a b : string) :
  forall i,
    keepAt keep i (a ++ b)
    = keepAt keep i a ++ keepAt keep (i + Z.of_nat (String.length a)) b.
Proof.
  induction a as [| ch a IHa]; intros i; simpl.
  - now rewrite Z.add_0_r.
  - rewrite IHa.
    replace (i + 1 + Z.of_nat (String.length a))
      with (i + Z.pos (Pos.of_succ_nat (String.length a))) by lia.
    now destruct (keep i).
Qed.

Lemma keepAt_all (keep : Z -> bool) (s : string) :
  forall i,
    (forall j, i <= j < i + Z.of_nat (String.length s) -> keep j = true) ->
    keepAt keep i s = s.
Proof.
  induction s as [| ch s IHs]; intros i Hkeep; simpl; [reflexivity |].
  rewrite Hkeep by (simpl; lia).
  f_equal. apply IHs. intros j Hj. apply Hkeep. simpl. lia.
Qed.

Lemma keepAt_none (keep : Z -> bool) (s : string) :
  forall i,
    (forall j, i <= j < i + Z.of_nat (String.length s) -> keep j = false) ->
    keepAt keep i s = "".
Proof.
  induction s as [| ch s IHs]; intros i Hkeep; simpl; [reflexivity |].
  rewrite Hkeep by (simpl; lia).
  apply IHs. intros j Hj. apply Hkeep. simpl. lia.
Qed.

Lemma keepAt_ext (keep keep' : Z -> bool) (s : string) :
  forall i,
    (forall j, i <= j -> keep j = keep' j) ->
    keepAt keep i s = keepAt keep' i s.
Proof.
  induction s as [| ch s IHs]; intros i Hext; simpl; [reflexivity |].
  rewrite (Hext i) by lia.
  rewrite (IHs (i + 1)) by (intros j Hj; apply Hext; lia).
  reflexivity.
Qed.

Lemma length_keepAt (keep : Z -> bool) (s : string) :
  forall i, (String.length (keepAt keep i s) <= String.length s)%nat.
Proof.
  induction s as [| ch s IHs]; intros i; simpl; [lia |].
  specialize (IHs (i + 1)). destruct (keep i); simpl; lia.
Qed.

(** ** The loop of [removeRanges] *)

Lemma removeStep_skip (source : string) (st : EraseState) (r : Range) :
  start r < cursor st -> removeStep source st r = st.
Proof.
  intros H. unfold removeStep.
  destruct (Z.ltb_spec (start r) (cursor st)); [reflexivity | lia].
Qed.

Lemma removeStep_take (source : string) (st : EraseState) (r : Range) :
  cursor st <= start r ->
  removeStep source st r
  = {| cursor := end_ r;
       removed := removed st + (end_ r - start r);
       output := output st ++ slice source (cursor st) (Some (start r)) |}.
Proof.
  intros H. unfold removeStep.
  destruct (Z.ltb_spec (start r) (cursor st)); [lia | reflexivity].
Qed.

Lemma removeLoop_snoc (source : string) (pre : list Range) (r : Range) :
  removeLoop source (pre ++ [r])
  = removeStep source (removeLoop source pre) r.
Proof. unfold removeLoop. now rewrite fold_left_app. Qed.

Lemma excised_app (source : string) (post : list Range) :
  forall pre st,
    excised (cursor st) (pre ++ post)
    = (excised (cursor st) pre
       ++ excised (cursor (fold_left (removeStep source) pre st)) post)%list.
Proof.
  induction pre as [| r pre IH]; intros st; simpl; [reflexivity |].
  unfold removeStep at 2.
  destruct (Z.ltb_spec (start r) (cursor st)).
  - apply IH.
  - simpl. f_equal.
    apply (IH {| cursor := end_ r;
                 removed := removed st + (end_ r - start r);
                 output := output st
                           ++ slice source (cursor st) (Some (start r)) |}).
Qed.

Lemma excised_starts (ranges : list Range) :
  forall cur,
    Forall wellFormed ranges ->
    Forall (fun r => cur <= start r) (excised cur ranges).
Proof.
  induction ranges as [| r rest IH]; intros cur Hwf; simpl; [constructor |].
  inversion Hwf as [| ? ? Hr Hrest]; subst.
  destruct (Z.ltb_spec (start r) cur).
  - now apply IH.
  - constructor; [assumption |].
    eapply Forall_impl; [| apply (IH (end_ r) Hrest)].
    unfold wellFormed in Hr. simpl. intros; lia.
Qed.

Lemma removed_total (source : string) (ranges : list Range) :
  forall st,
    removed (fold_left (removeStep source) ranges st)
    = removed st + totalSpan (excised (cursor st) ranges).
Proof.
  induction ranges as [| r rest IH]; intros st; simpl; [lia |].
  rewrite IH. unfold removeStep.
  destruct (Z.ltb_spec (start r) (cursor st)); simpl; [reflexivity |].
  unfold span. lia.
Qed.

Lemma covered_later (ranges : list Range) (bound j : Z) :
  Forall (fun r => bound <= start r) ranges ->
  j < bound -> covered ranges j = false.
Proof.
  intros Hall Hj. unfold covered.
  induction Hall as [| r rest Hr _ IH]; simpl; [reflexivity |].
  rewrite IH, orb_false_r. unfold covers.
  destruct (Z.leb_spec (start r) j); [lia | reflexivity].
Qed.

(** Removing one more range [r], in front of ranges that start after it
    ends: the text from the cursor on loses exactly the characters of [r]. *)
Lemma keepAt_excise (source : string) (cur : Z) (r : Range)
      (later : list Range) :
  0 <= cur -> cur <= start r -> start r < end_ r ->
  Forall (fun x => end_ r <= start x) later ->
  keepAt (outside (r :: later)) cur (dropN (Z.to_nat cur) source)
  = slice source cur (Some (start r))
    ++ keepAt (outside later) (end_ r) (dropN (Z.to_nat (end_ r)) source).
Proof.
  intros Hcur Hstart Hwf Hlater.
  rewrite slice_between by lia.
  rewrite (dropN_split source (Z.to_nat cur) (Z.to_nat (start r - cur))).
  replace (Z.to_nat cur + Z.to_nat (start r - cur))%nat
    with (Z.to_nat (start r)) by lia.
  rewrite (dropN_split source (Z.to_nat (start r))
                       (Z.to_nat (end_ r - start r))).
  replace (Z.to_nat (start r) + Z.to_nat (end_ r - start r))%nat
    with (Z.to_nat (end_ r)) by lia.
  rewrite !keepAt_app. f_equal.
  - apply keepAt_all. intros j Hj.
    rewrite length_substring in Hj.
    unfold outside. simpl. unfold covers.
    rewrite (covered_later later (end_ r) j Hlater) by lia.
    destruct (Z.leb_spec (start r) j); [lia | reflexivity].
  - rewrite keepAt_none.
    + simpl.
      destruct (Nat.eq_dec (String.length (dropN (Z.to_nat (end_ r)) source)) 0)
        as [Hnil | Hcons].
      * now rewrite (length_zero_empty _ Hnil).
      * rewrite length_dropN in Hcons.
        rewrite !length_substring.
        replace (cur
                 + Z.of_nat (Nat.min (Z.to_nat (start r - cur))
                                     (String.length source - Z.to_nat cur))
                 + Z.of_nat (Nat.min (Z.to_nat (end_ r - start r))
                                     (String.length source
                                      - Z.to_nat (start r))))
          with (end_ r) by lia.
        apply keepAt_ext. intros j Hj.
        unfold outside. simpl. unfold covers.
        destruct (Z.ltb_spec j (end_ r)); [lia |].
        now rewrite andb_false_r.
    + intros j Hj. rewrite !length_substring in Hj.
      unfold outside. simpl. unfold covers.
      destruct (Z.leb_spec (start r) j); [| lia].
      destruct (Z.ltb_spec j (end_ r)); [reflexivity | lia].
Qed.

Lemma removeLoop_output (source : string) (ranges : list Range) :
  forall st,
    0 <= cursor st ->
    Forall wellFormed ranges ->
    let st' := fold_left (removeStep source) ranges st in
    output st' ++ slice source (cursor st') None
    = output st
      ++ keepAt (outside (excised (cursor st) ranges)) (cursor st)
                (dropN (Z.to_nat (cursor st)) source).
Proof.
  induction ranges as [| r rest IH]; intros st Hcur Hwf; simpl.
  - rewrite slice_to_end by assumption. f_equal.
    symmetry. apply keepAt_all. reflexivity.
  - inversion Hwf as [| ? ? Hr Hrest]; subst. unfold wellFormed in Hr.
    destruct (Z.ltb_spec (start r) (cursor st)) as [Hskip | Htake].
    + rewrite removeStep_skip by assumption. now apply IH.
    + rewrite removeStep_take by assumption.
      rewrite IH by (simpl; first [lia | assumption]).
      simpl. rewrite append_assoc. f_equal.
      symmetry. apply keepAt_excise; try lia.
      eapply Forall_impl; [| apply (excised_starts rest (end_ r) Hrest)].
      simpl. intros; lia.
Qed.

(** What [removeRanges] returns, for well-formed ranges in any order. *)
Lemma removeRanges_excised (source : string) (ranges : list Range) :
  Forall wellFormed ranges ->
  removeRanges source ranges
  = (without (excised 0 ranges) source, totalSpan (excised 0 ranges)).
Proof.
  intros Hwf. unfold removeRanges, removeLoop. f_equal.
  - rewrite removeLoop_output by (simpl; first [lia | assumption]).
    simpl. unfold dropN. simpl.
    now rewrite Nat.sub_0_r, substring_whole.
  - now rewrite removed_total.
Qed.

(** The loop invariant behind the length law: the output and the removed
    total account for the text up to the cursor. *)
Lemma removeLoop_length (source : string) (ranges : list Range) :
  forall st,
    0 <= cursor st <= Z.of_nat (String.length source) ->
    Z.of_nat (String.length (output st)) + removed st = cursor st ->
    Forall wellFormed ranges ->
    Forall (fun r => end_ r <= Z.of_nat (String.length source)) ranges ->
    let st' := fold_left (removeStep source) ranges st in
    0 <= cursor st' <= Z.of_nat (String.length source) /\
    Z.of_nat (String.length (output st')) + removed st' = cursor st'.
Proof.
  induction ranges as [| r rest IH]; intros st Hcur Hinv Hwf Hin; simpl.
  - split; assumption.
  - inversion Hwf as [| ? ? Hr Hrest]; subst. unfold wellFormed in Hr.
    inversion Hin as [| ? ? Hr' Hrest']; subst.
    destruct (Z.ltb_spec (start r) (cursor st)) as [Hskip | Htake].
    + rewrite removeStep_skip by assumption. now apply IH.
    + rewrite removeStep_take by assumption.
      apply IH; simpl; try assumption; [lia |].
      rewrite length_append, slice_between, length_substring by lia.
      lia.
Qed.

Lemma removeRanges_length (source : string) (ranges : list Range) :
  Forall wellFormed ranges ->
  Forall (fun r => end_ r <= Z.of_nat (String.length source)) ranges ->
  Z.of_nat (String.length (fst (removeRanges source ranges)))
  + snd (removeRanges source ranges)
  = Z.of_nat (String.length source).
Proof.
  intros Hwf Hin. unfold removeRanges, removeLoop. simpl.
  destruct (removeLoop_length source ranges
              {| cursor := 0; removed := 0; output := "" |})
    as [Hcur Hinv]; simpl; try assumption; try lia.
  rewrite length_append, slice_to_end, length_dropN by lia.
  lia.
Qed.

Lemma totalSpan_excised_le (ranges : list Range) :
  forall cur,
    Forall wellFormed ranges ->
    totalSpan (excised cur ranges) <= totalSpan ranges.
Proof.
  induction ranges as [| r rest IH]; intros cur Hwf; simpl; [lia |].
  inversion Hwf as [| ? ? Hr Hrest]; subst. unfold wellFormed in Hr.
  destruct (start r <? cur); simpl.
  - specialize (IH cur Hrest). unfold span. lia.
  - specialize (IH (end_ r) Hrest). lia.
Qed.

Lemma length_excised_le (ranges : list Range) :
  forall cur, (List.length (excised cur ranges) <= List.length ranges)%nat.
Proof.
  induction ranges as [| r rest IH]; intros cur; simpl; [lia |].
  destruct (start r <? cur); simpl.
  - specialize (IH cur). lia.
  - specialize (IH (end_ r)). lia.
Qed.

(** Ranges in ascending order of start that do not overlap one another,
    the first not starting before the cursor, are all removed. *)
Lemma excised_disjoint (ranges : list Range) :
  forall cur,
    StronglySorted startsBefore ranges ->
    Forall wellFormed ranges ->
    ForallOrdPairs disjoint ranges ->
    Forall (fun r => cur <= start r) ranges ->
    excised cur ranges = ranges.
Proof.
  induction ranges as [| r rest IH]; intros cur Hsorted Hwf Hdis Hcur;
    simpl; [reflexivity |].
  inversion Hsorted as [| ? ? Hsrest Hsr]; subst.
  inversion Hwf as [| ? ? Hr Hrest]; subst.
  inversion Hdis as [| ? ? Hdr Hdrest]; subst.
  inversion Hcur as [| ? ? Hcr _]; subst.
  destruct (Z.ltb_spec (start r) cur); [lia |].
  f_equal. apply IH; try assumption.
  rewrite Forall_forall in *. intros x Hx.
  specialize (Hsr x Hx). specialize (Hdr x Hx). specialize (Hrest x Hx).
  unfold startsBefore, disjoint, wellFormed in *. lia.
Qed.

(** In ascending order of start, a range that is not removed starts before
    the cursor or inside a range that is removed. *)
Lemma skipped_overlaps (ranges : list Range) :
  forall cur,
    StronglySorted startsBefore ranges ->
    Forall wellFormed ranges ->
    Forall (fun r => start r < cur
                     \/ covered (excised cur ranges) (start r) = true)
           ranges.
Proof.
  induction ranges as [| r rest IH]; intros cur Hsorted Hwf; [constructor |].
  inversion Hsorted as [| ? ? Hsrest Hsr]; subst.
  inversion Hwf as [| ? ? Hr Hrest]; subst. unfold wellFormed in Hr.
  simpl. destruct (Z.ltb_spec (start r) cur) as [Hskip | Htake].
  - constructor; [now left | now apply IH].
  - assert (Hself : covers r (start r) = true).
    { unfold covers.
      destruct (Z.leb_spec (start r) (start r)); [| lia].
      destruct (Z.ltb_spec (start r) (end_ r)); [reflexivity | lia]. }
    constructor.
    + right. simpl. now rewrite Hself.
    + specialize (IH (end_ r) Hsrest Hrest).
      rewrite Forall_forall in *. intros x Hx.
      right. simpl.
      destruct (IH x Hx) as [Hin | Hcov].
      * specialize (Hsr x Hx). unfold startsBefore in Hsr.
        unfold covers.
        destruct (Z.leb_spec (start r) (start x)); [| lia].
        destruct (Z.ltb_spec (start x) (end_ r)); [reflexivity | lia].
      * rewrite Hcov. apply orb_true_r.
Qed.

(** ** Normalising the comment list *)

Lemma toRange_wellFormed (c : Comment) : Forall wellFormed (toRange c).
Proof.
  unfold toRange.
  destruct (commentStart c); try constructor.
  destruct (commentEnd c); try constructor.
  destruct (Z.ltb_spec n n0); constructor; [assumption | constructor].
Qed.

Lemma validRanges_wellFormed (cs : list Comment) :
  Forall wellFormed (validRanges cs).
Proof.
  unfold validRanges.
  induction cs as [| c cs IH]; simpl; [constructor |].
  apply Forall_app. split; [apply toRange_wellFormed | exact IH].
Qed.

Lemma insertByStart_perm (r : Range) (l : list Range) :
  Permutation (r :: l) (insertByStart r l).
Proof.
  induction l as [| x l IH]; simpl; [reflexivity |].
  destruct (start r <=? start x); [reflexivity |].
  rewrite perm_swap. now constructor.
Qed.

Lemma sortByStart_perm (l : list Range) : Permutation l (sortByStart l).
Proof.
  induction l as [| r l IH]; simpl; [constructor |].
  rewrite <- insertByStart_perm. now constructor.
Qed.

Lemma insertByStart_sorted (r : Range) (l : list Range) :
  StronglySorted startsBefore l ->
  StronglySorted startsBefore (insertByStart r l).
Proof.
  induction 1 as [| x l Hl IH Hx]; simpl.
  - constructor; constructor.
  - destruct (Z.leb_spec (start r) (start x)) as [Hle | Hgt].
    + constructor; [now constructor |].
      constructor; [exact Hle |].
      eapply Forall_impl; [| exact Hx].
      unfold startsBefore. intros; lia.
    + constructor; [exact IH |].
      rewrite <- insertByStart_perm.
      constructor; [unfold startsBefore; lia | exact Hx].
Qed.

Lemma sortByStart_sorted (l : list Range) :
  StronglySorted startsBefore (sortByStart l).
Proof.
  induction l as [| r l IH]; simpl; [constructor |].
  now apply insertByStart_sorted.
Qed.

Lemma normalizeRanges_wellFormed (cs : list Comment) :
  Forall wellFormed (normalizeRanges cs).
Proof.
  unfold normalizeRanges.
  rewrite <- sortByStart_perm. apply validRanges_wellFormed.
Qed.

Lemma sortByStart_length (l : list Range) :
  List.length (sortByStart l) = List.length l.
Proof. symmetry. apply Permutation_length, sortByStart_perm. Qed.

Lemma validRanges_proper (cs : list Comment) :
  Forall properComment cs ->
  List.length (validRanges cs) = List.length cs.
Proof.
  unfold validRanges.
  induction 1 as [| c cs (s & e & Hs & He & Hlt) _ IH]; simpl;
    [reflexivity |].
  rewrite length_app, IH. unfold toRange. rewrite Hs, He.
  destruct (Z.ltb_spec s e); [reflexivity | lia].
Qed.

Lemma slice_whole (s : string) : slice s 0 None = s.
Proof.
  rewrite slice_to_end by lia. unfold dropN. simpl.
  now rewrite Nat.sub_0_r, substring_whole.
Qed.

(** ** The parse loop *)

Section Resolver.

Variable parse : Parser.
Variable source : string.

Lemma tryPluginSets_all_fail (pluginSets : list (list Plugin)) :
  forall st,
    Forall (fails parse source) pluginSets ->
    tryPluginSets parse source pluginSets st
    = {| ast := ast st;
         lastError := lastThrown parse source pluginSets (lastError st);
         attempted := (attempted st ++ pluginSets)%list |}.
Proof.
  induction pluginSets as [| ps rest IH]; intros st Hall; simpl.
  - rewrite app_nil_r. now destruct st.
  - inversion Hall as [| ? ? [e He] Hrest]; subst.
    rewrite He, IH by assumption. simpl.
    now rewrite <- app_assoc.
Qed.

Lemma tryPluginSets_first_success
      (pre : list (list Plugin)) (ps : list Plugin)
      (post : list (list Plugin)) (tree : Ast) :
  forall st,
    Forall (fails parse source) pre ->
    parse source ps = Parsed tree ->
    tryPluginSets parse source (pre ++ ps :: post) st
    = {| ast := Some tree;
         lastError := lastThrown parse source pre (lastError st);
         attempted := (attempted st ++ pre ++ [ps])%list |}.
Proof.
  induction pre as [| x pre IH]; intros st Hpre Hps; simpl.
  - now rewrite Hps.
  - inversion Hpre as [| ? ? [e He] Hrest]; subst.
    rewrite He, IH by assumption. simpl.
    now rewrite <- app_assoc.
Qed.

(** Either every set fails, or there is a first one that parses. *)
Lemma first_success_split (pluginSets : list (list Plugin)) :
  Forall (fails parse source) pluginSets
  \/ exists pre ps post tree,
      pluginSets = (pre ++ ps :: post)%list
      /\ Forall (fails parse source) pre
      /\ parse source ps = Parsed tree.
Proof.
  induction pluginSets as [| x rest IH]; [left; constructor |].
  destruct (parse source x) as [tree | e] eqn:Hx.
  - right. exists [], x, rest, tree. repeat split; [constructor | exact Hx].
  - assert (Hfail : fails parse source x) by (now exists e).
    destruct IH as [Hall | (pre & ps & post & tree & -> & Hpre & Hps)].
    + left. now constructor.
    + right. exists (x :: pre), ps, post, tree.
      repeat split; [now constructor | exact Hps].
Qed.

Lemma lastThrown_last (pluginSets : list (list Plugin)) :
  forall init,
    pluginSets <> [] ->
    Forall (fails parse source) pluginSets ->
    exists error,
      parse source (last pluginSets []) = Threw error
      /\ lastThrown parse source pluginSets init = Some error.
Proof.
  unfold lastThrown.
  induction pluginSets as [| x rest IH]; intros init Hne Hall;
    [congruence |].
  inversion Hall as [| ? ? [e He] Hrest]; subst.
  destruct rest as [| y rest].
  - exists e. simpl. now rewrite He.
  - destruct (IH (Some e)) as (e' & Hlast & Hfold);
      [discriminate | assumption |].
    exists e'. split; [exact Hlast |].
    simpl in *. now rewrite He.
Qed.

Lemma pluginSetsOf_nonempty (parserOptions : ParserOptions) :
  pluginSetsOf parserOptions <> [].
Proof.
  unfold pluginSetsOf. destruct (plugins parserOptions); discriminate.
Qed.

(** The state of the parse loop after every set has failed. *)
Lemma resolve_all_fail (parserOptions : ParserOptions) :
  Forall (fails parse source) (pluginSetsOf parserOptions) ->
  exists lastE,
    parse source (last (pluginSetsOf parserOptions) []) = Threw lastE
    /\ resolve parse source parserOptions
       = {| ast := None; lastError := Some lastE;
            attempted := pluginSetsOf parserOptions |}.
Proof.
  intros Hall.
  destruct (lastThrown_last (pluginSetsOf parserOptions) None
              (pluginSetsOf_nonempty parserOptions) Hall)
    as (lastE & Hlast & Hthrown).
  exists lastE. split; [exact Hlast |].
  unfold resolve. rewrite tryPluginSets_all_fail by assumption.
  simpl. now rewrite Hthrown.
Qed.

(** The result of a run whose parse loop ended with a tree. *)
Lemma strip_resolved (parserOptions : ParserOptions) (tree : Ast) :
  ast (resolve parse source parserOptions) = Some tree ->
  let ranges := normalizeRanges (commentsOf tree) in
  completion (stripCommentsFromCode parse (JsString source) parserOptions)
  = Return {| code := fst (removeRanges source ranges);
              commentCount := Z.of_nat (List.length ranges);
              removedChars := snd (removeRanges source ranges);
              removedRanges := ranges |}.
Proof.
  intros Hast. simpl. rewrite Hast.
  destruct (commentsOf tree) as [| c cs] eqn:Hcs.
  - simpl. unfold removeRanges, removeLoop. simpl.
    now rewrite slice_whole.
  - destruct (removeRanges source (normalizeRanges (c :: cs)))
      as [out rem]. reflexivity.
Qed.

Lemma strip_return_inv (parserOptions : ParserOptions)
      (result : StripResult) :
  completion (stripCommentsFromCode parse (JsString source) parserOptions)
  = Return result ->
  exists tree, ast (resolve parse source parserOptions) = Some tree.
Proof.
  simpl.
  destruct (ast (resolve parse source parserOptions)) as [tree |];
    [now exists tree | discriminate].
Qed.

Lemma strip_calls (parserOptions : ParserOptions) :
  calls (stripCommentsFromCode parse (JsString source) parserOptions)
  = attempted (resolve parse source parserOptions).
Proof.
  simpl.
  destruct (ast (resolve parse source parserOptions)) as [tree |];
    [| reflexivity].
  destruct (commentsOf tree) as [| c cs]; [reflexivity |].
  now destruct (removeRanges source (normalizeRanges (c :: cs))).
Qed.

End Resolver.

(** * The claims *)

Section Claims.

Variable parse : Parser.

(** C1 (length law).  Whenever [stripCommentsFromCode] returns, the length
    of the returned text plus [removedChars] is the length of the input
    text.  The parser is external; the law is stated for runs in which the
    ranges it reported end inside the text, as the ranges of a parser do. *)
Theorem length_law (source : string) (parserOptions : ParserOptions)
        (result : StripResult) :
  completion (stripCommentsFromCode parse (JsString source) parserOptions)
  = Return result ->
  Forall (fun r => end_ r <= Z.of_nat (String.length source))
         (removedRanges result) ->
  Z.of_nat (String.length (code result)) + removedChars result
  = Z.of_nat (String.length source).
Proof.
  intros Hrun Hin.
  destruct (strip_return_inv parse source parserOptions result Hrun)
    as [tree Htree].
  rewrite (strip_resolved parse source parserOptions tree Htree) in Hrun.
  injection Hrun as <-. simpl in *.
  apply removeRanges_length; [apply normalizeRanges_wellFormed | exact Hin].
Qed.

(** C3 (zero-comment short-circuit).  When the parse loop ends with a tree
    that has no comments, the result is the input text itself with
    [commentCount = 0], [removedChars = 0] and [removedRanges = []]. *)
Theorem zero_comment_short_circuit (source : string)
        (parserOptions : ParserOptions) (tree : Ast) :
  ast (resolve parse source parserOptions) = Some tree ->
  commentsOf tree = [] ->
  completion (stripCommentsFromCode parse (JsString source) parserOptions)
  = Return {| code := source; commentCount := 0;
              removedChars := 0; removedRanges := [] |}.
Proof.
  intros Htree Hnone. simpl. now rewrite Htree, Hnone.
Qed.

(** C4 (reported [commentCount]).  The reported count is the number of
    ranges handed to [removeRanges], whatever that function skips: it is
    never below the number of ranges removed, and it is the number of
    comments of the tree when these are proper comment tokens. *)
Theorem commentCount_convention (source : string)
        (parserOptions : ParserOptions) (tree : Ast)
        (result : StripResult) :
  ast (resolve parse source parserOptions) = Some tree ->
  completion (stripCommentsFromCode parse (JsString source) parserOptions)
  = Return result ->
  let ranges := normalizeRanges (commentsOf tree) in
  (code result, removedChars result) = removeRanges source ranges
  /\ commentCount result = Z.of_nat (List.length ranges)
  /\ Z.of_nat (List.length (excised 0 ranges)) <= commentCount result
  /\ (Forall properComment (commentsOf tree) ->
      commentCount result = Z.of_nat (List.length (commentsOf tree))).
Proof.
  intros Htree Hrun ranges.
  rewrite (strip_resolved parse source parserOptions tree Htree) in Hrun.
  injection Hrun as <-.
  cbn [code commentCount removedChars removedRanges]. fold ranges.
  split; [| split; [| split]].
  - symmetry. apply surjective_pairing.
  - reflexivity.
  - pose proof (length_excised_le ranges 0). lia.
  - intros Hproper. unfold ranges, normalizeRanges.
    now rewrite sortByStart_length, validRanges_proper.
Qed.

(** C5 (exhaustion failure).  When the parser throws under every plugin
    set that is tried, [stripCommentsFromCode] throws an [Error] whose
    message is ["Failed to parse <filename>: <message>"], where the
    message is that of the error thrown under the last set; that error is
    also the [cause].  An absent filename reads [unknown], an absent
    message [Unknown parser error]. *)
Theorem exhaustion_failure (source : string)
        (parserOptions : ParserOptions) :
  Forall (fails parse source) (pluginSetsOf parserOptions) ->
  let run := stripCommentsFromCode parse (JsString source) parserOptions in
  exists lastE,
    parse source (last (pluginSetsOf parserOptions) []) = Threw lastE
    /\ calls run = pluginSetsOf parserOptions
    /\ completion run
       = Throw (Error ("Failed to parse " ++ fileLabel parserOptions
                         ++ ": " ++ messageOf (Some lastE))
                      (Some lastE))
    /\ (forall f m,
           filename parserOptions = Some f ->
           errorMessage lastE = Some m ->
           completion run
           = Throw (Error ("Failed to parse " ++ f ++ ": " ++ m)
                          (Some lastE))).
Proof.
  intros Hall run.
  destruct (resolve_all_fail parse source parserOptions Hall)
    as (lastE & Hlast & Hst).
  assert (Hrun : completion run
                 = Throw (Error ("Failed to parse "
                                   ++ fileLabel parserOptions
                                   ++ ": " ++ messageOf (Some lastE))
                                (Some lastE))).
  { unfold run. simpl. now rewrite Hst. }
  exists lastE. repeat split.
  - exact Hlast.
  - unfold run. rewrite strip_calls. now rewrite Hst.
  - exact Hrun.
  - intros f m Hf Hm. rewrite Hrun.
    unfold fileLabel, messageOf. now rewrite Hf, Hm.
Qed.

(** C6 (default search order).  Without explicit plugins the sets tried
    are, in this order, the nine of the specification: for the modern and
    then the legacy decorator plugin, the language sets (jsx, typescript),
    (jsx, flow, flowComments), (jsx), (), each followed by the decorator
    plugin and the common plugins; last the common plugins alone.  The
    parser is called on an initial segment of that list: every call but
    the last throws, and the run stops with the first set that parses, or
    after all nine have thrown. *)
Theorem default_search_order (source : string) (f : option string) :
  let run := stripCommentsFromCode parse (JsString source)
               {| filename := f; plugins := None |} in
  DEFAULT_PLUGIN_SETS = SpecOrder.searchOrder
  /\ List.length DEFAULT_PLUGIN_SETS = 9%nat
  /\ exists pre post,
      DEFAULT_PLUGIN_SETS = (pre ++ post)%list
      /\ Forall (fails parse source) pre
      /\ ((post = [] /\ calls run = pre
           /\ exists exn, completion run = Throw exn)
          \/ exists ps rest tree result,
              post = ps :: rest
              /\ parse source ps = Parsed tree
              /\ calls run = (pre ++ [ps])%list
              /\ completion run = Return result).
Proof.
  intros run. split; [reflexivity |]. split; [reflexivity |].
  set (opts := {| filename := f; plugins := None |}) in *.
  assert (Hsets : pluginSetsOf opts = DEFAULT_PLUGIN_SETS) by reflexivity.
  destruct (first_success_split parse source DEFAULT_PLUGIN_SETS)
    as [Hall | (pre & ps & post & tree & Hsplit & Hpre & Hps)].
  - exists DEFAULT_PLUGIN_SETS, []. rewrite app_nil_r.
    split; [reflexivity |]. split; [exact Hall |]. left.
    rewrite <- Hsets in Hall.
    destruct (resolve_all_fail parse source opts Hall)
      as (lastE & _ & Hst).
    repeat split.
    + unfold run. rewrite strip_calls. now rewrite Hst.
    + unfold run. simpl. rewrite Hst. simpl. eexists. reflexivity.
  - exists pre, (ps :: post). split; [exact Hsplit |].
    split; [exact Hpre |]. right.
    assert (Hst : resolve parse source opts
                  = {| ast := Some tree;
                       lastError := lastThrown parse source pre None;
                       attempted := (pre ++ [ps])%list |}).
    { unfold resolve. rewrite Hsets, Hsplit.
      now rewrite (tryPluginSets_first_success parse source pre ps post
                     tree) by assumption. }
    eexists ps, post, tree, _. repeat split; [exact Hps | |].
    + unfold run. rewrite strip_calls. now rewrite Hst.
    + unfold run. apply strip_resolved. now rewrite Hst.
Qed.

(** C7 (idempotence, as corrected).  Let the first pass over a text
    return.  Whenever the parser accepts the stripped text and finds no
    comment in it, stripping the stripped text returns it unchanged with
    [commentCount = 0]; this is so in particular when the first pass found
    no comment, for then the stripped text is the text itself and the second
    pass is the first one again.  When the parser rejects the stripped text
    under every plugin set, the second pass does not return: it throws the
    parse-failure error. *)
Theorem idempotence_of_accepted_text (x : string)
        (parserOptions : ParserOptions) (first : StripResult) :
  completion (stripCommentsFromCode parse (JsString x) parserOptions)
  = Return first ->
  let again :=
    stripCommentsFromCode parse (JsString (code first)) parserOptions in
  (forall tree,
      ast (resolve parse (code first) parserOptions) = Some tree ->
      commentsOf tree = [] ->
      completion again
      = Return {| code := code first; commentCount := 0;
                  removedChars := 0; removedRanges := [] |})
  /\ (commentCount first = 0 ->
      code first = x /\ completion again = Return first)
  /\ (Forall (fails parse (code first)) (pluginSetsOf parserOptions) ->
      exists lastE,
        parse (code first) (last (pluginSetsOf parserOptions) [])
        = Threw lastE
        /\ completion again
           = Throw (Error ("Failed to parse " ++ fileLabel parserOptions
                             ++ ": " ++ messageOf (Some lastE))
                          (Some lastE))).
Proof.
  intros Hrun again. subst again. split; [| split].
  - intros tree Htree Hnone.
    rewrite (strip_resolved parse (code first) parserOptions tree Htree).
    rewrite Hnone. cbn. f_equal. f_equal. apply slice_whole.
  - intros Hzero.
    assert (Hcode : code first = x).
    { destruct (strip_return_inv parse x parserOptions first Hrun)
        as [tree Htree].
      pose proof (strip_resolved parse x parserOptions tree Htree) as Hres.
      cbv zeta in Hres. rewrite Hrun in Hres. injection Hres as Hfirst.
      rewrite Hfirst in Hzero. rewrite Hfirst.
      cbn [commentCount code] in *.
      destruct (normalizeRanges (commentsOf tree)) as [| r rs];
        [| simpl in Hzero; lia].
      unfold removeRanges, removeLoop. simpl. apply slice_whole. }
    split; [exact Hcode |]. rewrite Hcode. exact Hrun.
  - intros Hfails.
    destruct (resolve_all_fail parse (code first) parserOptions Hfails)
      as (lastE & Hlast & Hstate).
    exists lastE. split; [exact Hlast |].
    cbn [stripCommentsFromCode]. now rewrite Hstate.
Qed.

(** C8 (input type check).  For an input that is not a string the function
    throws the [TypeError] at once: the parser is not called. *)
Theorem input_type_check (input : JsValue)
        (parserOptions : ParserOptions) :
  typeof input <> "string" ->
  stripCommentsFromCode parse input parserOptions
  = {| calls := [];
       completion := Throw (TypeError "Code must be a string.") |}.
Proof.
  intros Htype. destruct input; try reflexivity.
  now contradiction Htype.
Qed.

(** C9 (filename noninterference).  Two runs that differ only in the
    [filename] option call the parser with the same plugin lists and
    complete alike: both return, with the same result, or both throw,
    with the same kind of exception and, for a parse failure, the same
    cause; only the message of the parse failure may differ. *)
Theorem filename_noninterference (input : JsValue)
        (f1 f2 : option string) (customPlugins : option (list Plugin)) :
  let run1 := stripCommentsFromCode parse input
                {| filename := f1; plugins := customPlugins |} in
  let run2 := stripCommentsFromCode parse input
                {| filename := f2; plugins := customPlugins |} in
  calls run1 = calls run2
  /\ match completion run1, completion run2 with
     | Return r1, Return r2 => r1 = r2
     | Throw (TypeError m1), Throw (TypeError m2) => m1 = m2
     | Throw (Error m1 c1), Throw (Error m2 c2) =>
         c1 = c2
         /\ exists detail,
             m1 = "Failed to parse "
                    ++ fileLabel {| filename := f1;
                                    plugins := customPlugins |}
                    ++ ": " ++ detail
             /\ m2 = "Failed to parse "
                       ++ fileLabel {| filename := f2;
                                       plugins := customPlugins |}
                       ++ ": " ++ detail
     | _, _ => False
     end.
Proof.
  intros run1 run2. unfold run1, run2.
  destruct input as [| | b | n | source |];
    try (split; reflexivity).
  assert (Hres : resolve parse source
                   {| filename := f1; plugins := customPlugins |}
                 = resolve parse source
                     {| filename := f2; plugins := customPlugins |})
    by reflexivity.
  rewrite !strip_calls. split; [now rewrite Hres |].
  simpl. rewrite <- Hres.
  destruct (ast (resolve parse source
                   {| filename := f1; plugins := customPlugins |}))
    as [tree |].
  - destruct (commentsOf tree) as [| c cs]; [reflexivity |].
    now destruct (removeRanges source (normalizeRanges (c :: cs))).
  - split; [reflexivity |]. eexists. split; reflexivity.
Qed.

(** C10 (fields of a result).  In every returned result [commentCount] is
    the length of [removedRanges]; [removedRanges] is in ascending order
    of [start] and each of its ranges has [start < end];
    [removedChars] is the total length of the ranges of [removedRanges]
    that [removeRanges] did not skip, hence at most the total length of
    [removedRanges], and equal to it when the ranges are pairwise
    non-overlapping positions of the text (none starts below 0). *)
Theorem result_invariant (source : string)
        (parserOptions : ParserOptions) (result : StripResult) :
  completion (stripCommentsFromCode parse (JsString source) parserOptions)
  = Return result ->
  commentCount result = Z.of_nat (List.length (removedRanges result))
  /\ StronglySorted startsBefore (removedRanges result)
  /\ Forall wellFormed (removedRanges result)
  /\ removedChars result = totalSpan (excised 0 (removedRanges result))
  /\ removedChars result <= totalSpan (removedRanges result)
  /\ (Forall (fun r => 0 <= start r) (removedRanges result) ->
      ForallOrdPairs disjoint (removedRanges result) ->
      removedChars result = totalSpan (removedRanges result)).
Proof.
  intros Hrun.
  destruct (strip_return_inv parse source parserOptions result Hrun)
    as [tree Htree].
  rewrite (strip_resolved parse source parserOptions tree Htree) in Hrun.
  injection Hrun as <-.
  cbn [code commentCount removedChars removedRanges].
  set (ranges := normalizeRanges (commentsOf tree)).
  assert (Hwf : Forall wellFormed ranges)
    by apply normalizeRanges_wellFormed.
  assert (Hsorted : StronglySorted startsBefore ranges)
    by apply sortByStart_sorted.
  assert (Hrem : removed (removeLoop source ranges)
                 = totalSpan (excised 0 ranges))
    by (unfold removeLoop; now rewrite removed_total).
  rewrite Hrem.
  split; [reflexivity |]. split; [exact Hsorted |].
  split; [exact Hwf |]. split; [reflexivity |].
  split; [now apply totalSpan_excised_le |].
  intros Hnonneg Hdisjoint.
  now rewrite excised_disjoint.
Qed.

End Claims.

Lemma startsBefore_trans : Relations_1.Transitive startsBefore.
Proof. unfold Relations_1.Transitive, startsBefore. intros; lia. Qed.

(** C2 (the pass of [removeRanges]).  For ranges in ascending order of
    [start], each with [start < end]: the loop starts with cursor 0 and
    visits the ranges once, in order.  A range that starts before the cursor
    leaves cursor, total and output as they are; any other range appends
    [source.slice(cursor, range.start)] to the output, moves the cursor to
    [range.end] and adds [range.end - range.start] to the total.  The text
    returned is the source without the characters of the ranges that were
    not skipped, each remaining character once and in its place, so it is
    never longer than the source; the total returned is the sum of
    [end - start] over those ranges; and a range that was skipped starts
    inside one that was removed. *)
Theorem removeRanges_single_pass (source : string) (ranges : list Range) :
  Sorted startsBefore ranges ->
  Forall wellFormed ranges ->
  removeLoop source [] = {| cursor := 0; removed := 0; output := "" |}
  /\ (forall pre r post,
        ranges = (pre ++ r :: post)%list ->
        let st := removeLoop source pre in
        (start r < cursor st ->
         removeLoop source (pre ++ [r]) = st
         /\ excised 0 (pre ++ [r]) = excised 0 pre)
        /\ (cursor st <= start r ->
            removeLoop source (pre ++ [r])
            = {| cursor := end_ r;
                 removed := removed st + (end_ r - start r);
                 output := output st
                           ++ slice source (cursor st) (Some (start r)) |}
            /\ excised 0 (pre ++ [r]) = (excised 0 pre ++ [r])%list))
  /\ removeRanges source ranges
     = (without (excised 0 ranges) source, totalSpan (excised 0 ranges))
  /\ (String.length (fst (removeRanges source ranges))
      <= String.length source)%nat
  /\ Forall (fun r => 0 <= start r ->
                      covered (excised 0 ranges) (start r) = true)
            ranges.
Proof.
  intros Hsorted Hwf.
  split; [reflexivity |].
  split; [| split; [| split]].
  - intros pre r post _ st.
    pose proof (excised_app source [r] pre
                  {| cursor := 0; removed := 0; output := "" |}) as Happ.
    simpl in Happ. fold (removeLoop source pre) in Happ. fold st in Happ.
    rewrite removeLoop_snoc. fold st.
    split; intros Hcmp.
    + rewrite removeStep_skip by assumption. split; [reflexivity |].
      rewrite Happ.
      destruct (Z.ltb_spec (start r) (cursor st)); [| lia].
      apply app_nil_r.
    + rewrite removeStep_take by assumption. split; [reflexivity |].
      rewrite Happ.
      destruct (Z.ltb_spec (start r) (cursor st)); [lia | reflexivity].
  - now apply removeRanges_excised.
  - rewrite removeRanges_excised by assumption. simpl.
    apply length_keepAt.
  - apply Sorted_StronglySorted in Hsorted; [| exact startsBefore_trans].
    eapply Forall_impl; [| apply (skipped_overlaps ranges 0 Hsorted Hwf)].
    simpl. intros r [Hneg | Hcov] Hpos; [lia | exact Hcov].
Qed.

(** * The claims on concrete runs *)

Lemma length_law_witness :
  completion (stripCommentsFromCode Demo.parse (JsString Runs.sample)
                                    Demo.noOptions)
  = Return Runs.sampleResult
  /\ Z.of_nat (String.length (code Runs.sampleResult))
     + removedChars Runs.sampleResult
     = Z.of_nat (String.length Runs.sample).
Proof.
  assert (Hrun : completion (stripCommentsFromCode Demo.parse
                               (JsString Runs.sample) Demo.noOptions)
                 = Return Runs.sampleResult) by (vm_compute; reflexivity).
  split; [exact Hrun |].
  apply (length_law Demo.parse Runs.sample Demo.noOptions
                    Runs.sampleResult Hrun).
  repeat constructor; simpl; lia.
Defined.

Lemma removeRanges_single_pass_witness :
  Sorted startsBefore Runs.overlapping
  /\ Forall wellFormed Runs.overlapping
  /\ removeRanges Runs.digits Runs.overlapping
     = (without [mkRange 1 4; mkRange 7 20] Runs.digits, 3 + 13).
Proof.
  assert (Hsorted : Sorted startsBefore Runs.overlapping)
    by (repeat constructor; unfold startsBefore; simpl; lia).
  assert (Hwf : Forall wellFormed Runs.overlapping)
    by (repeat constructor; unfold wellFormed; simpl; lia).
  split; [exact Hsorted |]. split; [exact Hwf |].
  exact (proj1 (proj2 (proj2 (removeRanges_single_pass
                                Runs.digits Runs.overlapping Hsorted Hwf)))).
Defined.

Lemma zero_comment_short_circuit_witness :
  completion (stripCommentsFromCode Demo.parse (JsString "let x = 1;")
                                    Demo.noOptions)
  = Return {| code := "let x = 1;"; commentCount := 0;
              removedChars := 0; removedRanges := [] |}.
Proof.
  apply (zero_comment_short_circuit Demo.parse "let x = 1;" Demo.noOptions
                                    {| comments := Some [] |}).
  - vm_compute. reflexivity.
  - reflexivity.
Defined.

Lemma commentCount_convention_witness :
  commentCount Runs.sampleResult
  = Z.of_nat (List.length [Demo.comment 2 9; Demo.comment 12 16]).
Proof.
  apply (commentCount_convention
           Demo.parse Runs.sample Demo.noOptions
           {| comments := Some [Demo.comment 2 9; Demo.comment 12 16] |}
           Runs.sampleResult).
  - vm_compute. reflexivity.
  - vm_compute. reflexivity.
  - repeat constructor; eexists _, _;
      (split; [reflexivity | split; [reflexivity | lia]]).
Defined.

Lemma exhaustion_failure_witness :
  exists lastE,
    Demo.parse Runs.broken (last DEFAULT_PLUGIN_SETS []) = Threw lastE
    /\ calls (stripCommentsFromCode Demo.parse (JsString Runs.broken)
                                    (Demo.named "x.js"))
       = DEFAULT_PLUGIN_SETS
    /\ completion (stripCommentsFromCode Demo.parse (JsString Runs.broken)
                                         (Demo.named "x.js"))
       = Throw (Error ("Failed to parse " ++ "x.js" ++ ": "
                         ++ messageOf (Some lastE))
                      (Some lastE))
    /\ (forall f m,
           Some "x.js" = Some f ->
           errorMessage lastE = Some m ->
           completion (stripCommentsFromCode Demo.parse
                         (JsString Runs.broken) (Demo.named "x.js"))
           = Throw (Error ("Failed to parse " ++ f ++ ": " ++ m)
                          (Some lastE))).
Proof.
  apply (exhaustion_failure Demo.parse Runs.broken (Demo.named "x.js")).
  repeat constructor; eexists; vm_compute; reflexivity.
Defined.

Lemma idempotence_of_accepted_text_witness :
  completion (stripCommentsFromCode Asi.parse
                (JsString (code Asi.separatedPass)) Demo.noOptions)
  = Return {| code := code Asi.separatedPass; commentCount := 0;
              removedChars := 0; removedRanges := [] |}.
Proof.
  assert (Hrun : completion (stripCommentsFromCode Asi.parse
                               (JsString Asi.separated) Demo.noOptions)
                 = Return Asi.separatedPass) by (vm_compute; reflexivity).
  apply (proj1 (idempotence_of_accepted_text
                  Asi.parse Asi.separated Demo.noOptions Asi.separatedPass
                  Hrun)
               {| comments := Some [] |}).
  - vm_compute. reflexivity.
  - reflexivity.
Defined.

(** C7, as the specification states it, fails.  The first pass over two
    statements separated only by the line break of a comment returns; the
    stripped text has no comment left, not even a slash; and the second
    pass throws, because the two statements now stand on one line. *)
Lemma idempotence_counterexample :
  completion (stripCommentsFromCode Asi.parse (JsString Asi.twoStatements)
                                    Demo.noOptions)
  = Return Asi.firstPass
  /\ String.index 0 "/" (code Asi.firstPass) = None
  /\ (exists message cause,
         completion (stripCommentsFromCode Asi.parse
                       (JsString (code Asi.firstPass)) Demo.noOptions)
         = Throw (Error message cause))
  /\ ~ (forall first,
          completion (stripCommentsFromCode Asi.parse
                        (JsString Asi.twoStatements) Demo.noOptions)
          = Return first ->
          exists second,
            completion (stripCommentsFromCode Asi.parse
                          (JsString (code first)) Demo.noOptions)
            = Return second
            /\ commentCount second = 0
            /\ code second = code first).
Proof.
  assert (Hfirst : completion (stripCommentsFromCode Asi.parse
                                 (JsString Asi.twoStatements)
                                 Demo.noOptions)
                   = Return Asi.firstPass) by (vm_compute; reflexivity).
  split; [exact Hfirst |]. split; [reflexivity |]. split.
  - eexists. eexists. vm_compute. reflexivity.
  - intros Hclaim.
    destruct (Hclaim Asi.firstPass Hfirst) as (second & Hsecond & _).
    vm_compute in Hsecond. discriminate.
Qed.

Lemma input_type_check_witness :
  stripCommentsFromCode Demo.parse (JsNumber 42) Demo.noOptions
  = {| calls := [];
       completion := Throw (TypeError "Code must be a string.") |}.
Proof.
  apply (input_type_check Demo.parse (JsNumber 42) Demo.noOptions).
  simpl. discriminate.
Defined.

Lemma result_invariant_witness :
  commentCount Runs.sampleResult
  = Z.of_nat (List.length (removedRanges Runs.sampleResult))
  /\ StronglySorted startsBefore (removedRanges Runs.sampleResult)
  /\ Forall wellFormed (removedRanges Runs.sampleResult)
  /\ removedChars Runs.sampleResult
     = totalSpan (excised 0 (removedRanges Runs.sampleResult))
  /\ removedChars Runs.sampleResult
     <= totalSpan (removedRanges Runs.sampleResult)
  /\ (Forall (fun r => 0 <= start r) (removedRanges Runs.sampleResult) ->
      ForallOrdPairs disjoint (removedRanges Runs.sampleResult) ->
      removedChars Runs.sampleResult
      = totalSpan (removedRanges Runs.sampleResult)).
Proof.
  apply (result_invariant Demo.parse Runs.sample Demo.noOptions
                          Runs.sampleResult).
  vm_compute. reflexivity.
Defined.

(** ** Further runs *)

(** The message of the first attempt is dropped: under the first set the
    parser reports the open comment, under the last the [<], and the
    exception carries the latter. *)
Example last_message_reported :
  Demo.parse Runs.broken (hd [] DEFAULT_PLUGIN_SETS)
  = Threw {| errorMessage := Some "Unterminated comment" |}
  /\ completion (stripCommentsFromCode Demo.parse (JsString Runs.broken)
                                       (Demo.named "x.js"))
     = Throw (Error "Failed to parse x.js: Unexpected token"
                    (Some {| errorMessage := Some "Unexpected token" |})).
Proof. split; vm_compute; reflexivity. Qed.

(** Without [filename] and with an error that has no message, both
    defaults appear. *)
Example default_labels :
  completion (stripCommentsFromCode Demo.silent (JsString "x")
                                    Demo.noOptions)
  = Throw (Error "Failed to parse unknown: Unknown parser error"
                 (Some {| errorMessage := None |})).
Proof. vm_compute. reflexivity. Qed.

(** Two overlapping comments: both are counted and reported, one is
    removed. *)
Example overlap_counted_once_removed :
  completion (stripCommentsFromCode
                (Demo.fixed [Demo.comment 2 6; Demo.comment 0 4])
                (JsString Runs.digits) Demo.noOptions)
  = Return {| code := "456789"; commentCount := 2; removedChars := 4;
              removedRanges := [mkRange 0 4; mkRange 2 6] |}
  /\ excised 0 [mkRange 0 4; mkRange 2 6] = [mkRange 0 4].
Proof. split; vm_compute; reflexivity. Qed.

(** Markup is accepted by the first set, so the parser is called once. *)
Example first_set_wins :
  calls (stripCommentsFromCode Demo.parse (JsString "<a>{/* b */}</a>")
                               Demo.noOptions)
  = [hd [] DEFAULT_PLUGIN_SETS].
Proof. vm_compute. reflexivity. Qed.

(** * The file layer *)

(** ** Case and white space *)

Lemma lowerUnit_idem (c : ascii) : lowerUnit (lowerUnit c) = lowerUnit c.
Proof. destruct c as [[] [] [] [] [] [] [] []]; reflexivity. Qed.

Lemma isWhiteSpace_lowerUnit (c : ascii) :
  isWhiteSpace (lowerUnit c) = isWhiteSpace c.
Proof. destruct c as [[] [] [] [] [] [] [] []]; reflexivity. Qed.

Lemma toLowerCase_idem (s : string) :
  toLowerCase (toLowerCase s) = toLowerCase s.
Proof.
  induction s as [| c s IH]; simpl; [reflexivity |].
  now rewrite lowerUnit_idem, IH.
Qed.

Lemma trimStart_toLowerCase (s : string) :
  trimStart (toLowerCase s) = toLowerCase (trimStart s).
Proof.
  induction s as [| c s IH]; simpl; [reflexivity |].
  rewrite isWhiteSpace_lowerUnit.
  destruct (isWhiteSpace c); [exact IH | reflexivity].
Qed.

Lemma trimEnd_toLowerCase (s : string) :
  trimEnd (toLowerCase s) = toLowerCase (trimEnd s).
Proof.
  induction s as [| c s IH]; simpl; [reflexivity |].
  rewrite IH, isWhiteSpace_lowerUnit.
  destruct (trimEnd s); simpl; [| reflexivity].
  now destruct (isWhiteSpace c).
Qed.

Lemma trim_toLowerCase (s : string) :
  trim (toLowerCase s) = toLowerCase (trim s).
Proof.
  unfold trim. now rewrite trimStart_toLowerCase, trimEnd_toLowerCase.
Qed.

Lemma trimStart_idem (s : string) : trimStart (trimStart s) = trimStart s.
Proof.
  induction s as [| c s IH]; simpl; [reflexivity |].
  destruct (isWhiteSpace c) eqn:Hc; [exact IH |].
  simpl. now rewrite Hc.
Qed.

Lemma trimEnd_idem (s : string) : trimEnd (trimEnd s) = trimEnd s.
Proof.
  induction s as [| c s IH]; simpl; [reflexivity |].
  destruct (trimEnd s) as [| k ks] eqn:Hs.
  - destruct (isWhiteSpace c) eqn:Hc; simpl; [reflexivity |].
    now rewrite Hc.
  - change (trimEnd (String c (String k ks)))
      with (match trimEnd (String k ks) with
            | EmptyString =>
                if isWhiteSpace c then EmptyString else String c EmptyString
            | kept => String c kept
            end).
    now rewrite IH.
Qed.

(** A string that does not begin with white space keeps its beginning when
    its end is trimmed. *)
Lemma trimStart_trimEnd (s : string) :
  trimStart s = s -> trimStart (trimEnd s) = trimEnd s.
Proof.
  destruct s as [| c s]; simpl; [reflexivity |].
  destruct (isWhiteSpace c) eqn:Hc.
  - intros H. apply (f_equal String.length) in H.
    assert (Hle : forall t, (String.length (trimStart t) <= String.length t)%nat).
    { induction t as [| d t IHt]; simpl; [lia |].
      destruct (isWhiteSpace d); simpl; lia. }
    specialize (Hle s). simpl in H. lia.
  - intros _. destruct (trimEnd s); simpl; now rewrite Hc.
Qed.

Lemma trim_idem (s : string) : trim (trim s) = trim s.
Proof.
  unfold trim.
  rewrite (trimStart_trimEnd (trimStart s)) by apply trimStart_idem.
  apply trimEnd_idem.
Qed.

Lemma trimEnd_trim (s : string) : trimEnd (trim s) = trim s.
Proof. unfold trim. apply trimEnd_idem. Qed.

Lemma normalizeExtension_idem (ext : string) :
  normalizeExtension (normalizeExtension ext) = normalizeExtension ext.
Proof.
  unfold normalizeExtension.
  now rewrite trim_toLowerCase, trim_idem, toLowerCase_idem.
Qed.

Lemma nonEmpty_true (s : string) : nonEmpty s = true <-> s <> "".
Proof. destruct s; simpl; split; congruence. Qed.

Lemma startsWithDot_withDot (ext : string) :
  startsWithDot (withDot ext) = true.
Proof.
  unfold withDot. destruct (startsWithDot ext) eqn:H; [exact H | reflexivity].
Qed.

(** The normal form of an entry is stable under the whole normalisation. *)
Lemma normalizeExtension_withDot (ext : string) :
  nonEmpty (normalizeExtension ext) = true ->
  normalizeExtension (withDot (normalizeExtension ext))
  = withDot (normalizeExtension ext).
Proof.
  intros Hne. unfold withDot.
  destruct (startsWithDot (normalizeExtension ext));
    [apply normalizeExtension_idem |].
  assert (Hend : trimEnd (normalizeExtension ext) = normalizeExtension ext).
  { unfold normalizeExtension.
    now rewrite trimEnd_toLowerCase, trimEnd_trim. }
  assert (Hlow : toLowerCase (normalizeExtension ext)
                 = normalizeExtension ext)
    by (unfold normalizeExtension; apply toLowerCase_idem).
  destruct (normalizeExtension ext) as [| c z] eqn:Hz; [discriminate |].
  unfold normalizeExtension at 1, trim.
  change ("." ++ String c z) with (String "."%char (String c z)).
  change (trimStart (String "."%char (String c z)))
    with (String "."%char (String c z)).
  change (trimEnd (String "."%char (String c z)))
    with (match trimEnd (String c z) with
          | EmptyString => String "."%char EmptyString
          | kept => String "."%char kept
          end).
  rewrite Hend.
  change (toLowerCase (String "."%char (String c z)))
    with (String "."%char (toLowerCase (String c z))).
  now rewrite Hlow.
Qed.

(** ** Sets *)

Lemma has_In (set : StringSet) (x : string) :
  has set x = true <-> In x set.
Proof.
  unfold has. rewrite existsb_exists. split.
  - intros (y & Hy & Heq). apply String.eqb_eq in Heq. now subst.
  - intros Hx. exists x. split; [exact Hx | apply String.eqb_refl].
Qed.

Lemma newSet_step (values : list string) :
  forall set,
    NoDup set ->
    let result :=
      fold_left (fun set x => if has set x then set else (set ++ [x])%list)
                values set in
    NoDup result
    /\ (forall x, In x result <-> In x set \/ In x values)
    /\ ((forall x, In x values -> In x set) -> result = set).
Proof.
  induction values as [| v values IH]; intros set Hnd; simpl.
  - split; [exact Hnd |]. split; [intros x; tauto | reflexivity].
  - destruct (has set v) eqn:Hv.
    + apply has_In in Hv.
      destruct (IH set Hnd) as (Hnd' & Hin & Hsame).
      split; [exact Hnd' |]. split.
      * intros x. rewrite Hin. intuition (subst; auto).
      * intros Hall. apply Hsame. intros x Hx. apply Hall. now right.
    + assert (Hnv : ~ In v set)
        by (intros H; apply has_In in H; congruence).
      assert (Hnd1 : NoDup (set ++ [v])).
      { apply NoDup_app; [exact Hnd | repeat constructor; intros [] |].
        intros x Hx [<- | []]. contradiction. }
      destruct (IH (set ++ [v])%list Hnd1) as (Hnd' & Hin & _).
      split; [exact Hnd' |]. split.
      * intros x. rewrite Hin, in_app_iff. simpl. intuition.
      * intros Hall. exfalso. apply Hnv, Hall. now left.
Qed.

Lemma newSet_NoDup (values : list string) : NoDup (newSet values).
Proof. apply (newSet_step values []). constructor. Qed.

Lemma newSet_In (values : list string) (x : string) :
  In x (newSet values) <-> In x values.
Proof.
  destruct (newSet_step values [] (NoDup_nil _)) as (_ & Hin & _).
  unfold newSet. rewrite Hin. simpl. tauto.
Qed.

(** ** [buildExtensionSet] *)

Lemma normalizeExtensions_normal (items : list string) :
  Forall normalEntry (normalizeExtensions items).
Proof.
  unfold normalizeExtensions.
  induction items as [| e items IH]; simpl; [constructor |].
  destruct (nonEmpty (normalizeExtension e)) eqn:Hne; [| exact IH].
  simpl. constructor; [| exact IH].
  split; [apply startsWithDot_withDot |].
  now apply normalizeExtension_withDot.
Qed.

Lemma normalEntry_fixed (ext : string) :
  normalEntry ext ->
  nonEmpty (normalizeExtension ext) = true
  /\ withDot (normalizeExtension ext) = ext.
Proof.
  intros [Hdot Hnorm]. rewrite Hnorm. split.
  - destruct ext; [discriminate | reflexivity].
  - unfold withDot. now rewrite Hdot.
Qed.

Lemma normalizeExtensions_fixed (set : list string) :
  Forall normalEntry set -> normalizeExtensions set = set.
Proof.
  unfold normalizeExtensions.
  induction 1 as [| e set He _ IH]; simpl; [reflexivity |].
  destruct (normalEntry_fixed e He) as [Hne Hfix].
  rewrite Hne. simpl. now rewrite Hfix, IH.
Qed.

Lemma newSet_fixed (set : list string) : NoDup set -> newSet set = set.
Proof.
  intros Hnd. induction set as [| x set IH] using rev_ind; [reflexivity |].
  unfold newSet in *. rewrite fold_left_app. simpl.
  apply NoDup_remove in Hnd. rewrite app_nil_r in Hnd.
  destruct Hnd as [Hnd Hx]. rewrite (IH Hnd).
  destruct (has set x) eqn:Hhas; [| reflexivity].
  apply has_In in Hhas. contradiction.
Qed.

Lemma newSet_nonempty (values : list string) :
  values <> [] -> newSet values <> [].
Proof.
  destruct values as [| v values]; [congruence |].
  intros _ Hnil.
  assert (Hin : In v (newSet (v :: values)))
    by (apply newSet_In; now left).
  rewrite Hnil in Hin. contradiction.
Qed.

Lemma SUPPORTED_EXTENSIONS_normal : Forall normalEntry SUPPORTED_EXTENSIONS.
Proof. repeat constructor. Qed.

(** The set built from anything but a ready-made [Set]. *)
Lemma buildExtensionSet_values (extensions : Extensions)
      (set : StringSet) :
  (forall ready, extensions <> ExtensionSet ready) ->
  buildExtensionSet extensions = inr set ->
  exists values,
    values <> [] /\ Forall normalEntry values /\ set = newSet values.
Proof.
  intros Hnot Hbuild.
  assert (Hnorm : forall items,
             match normalizeExtensions items with
             | [] => inl (Error "At least one extension must be provided when overriding supported extensions." None)
             | normalized => inr (newSet normalized)
             end = inr set ->
             exists values,
               values <> [] /\ Forall normalEntry values
               /\ set = newSet values).
  { intros items H.
    pose proof (normalizeExtensions_normal items) as Hall.
    destruct (normalizeExtensions items) as [| v vs]; [discriminate |].
    injection H as <-. exists (v :: vs).
    split; [discriminate | split; [exact Hall | reflexivity]]. }
  assert (Hdefault : inr (newSet SUPPORTED_EXTENSIONS)
                     = (inr set : Exception + StringSet) ->
                     exists values,
                       values <> [] /\ Forall normalEntry values
                       /\ set = newSet values).
  { intros H. injection H as <-. exists SUPPORTED_EXTENSIONS.
    split; [discriminate |].
    split; [exact SUPPORTED_EXTENSIONS_normal | reflexivity]. }
  destruct extensions as [| ready | items | text]; simpl in Hbuild.
  - now apply Hdefault.
  - now contradiction (Hnot ready).
  - now apply Hnorm with items.
  - destruct (nonEmpty text);
      [now apply Hnorm with (splitComma text) | now apply Hdefault].
Qed.

(** X1.  Whatever the caller lists (an array, a comma-separated string, or
    nothing), the set that is built has no entry twice, every entry begins
    with a dot and is lower-case without surrounding white space; building
    again from the entries of the set gives the same set. *)
Theorem buildExtensionSet_normal_form (extensions : Extensions)
        (set : StringSet) :
  (forall ready, extensions <> ExtensionSet ready) ->
  buildExtensionSet extensions = inr set ->
  NoDup set
  /\ Forall normalEntry set
  /\ buildExtensionSet (ExtensionArray set) = inr set.
Proof.
  intros Hnot Hbuild.
  destruct (buildExtensionSet_values extensions set Hnot Hbuild)
    as (values & Hne & Hnormal & ->).
  assert (Hnd : NoDup (newSet values)) by apply newSet_NoDup.
  assert (Hall : Forall normalEntry (newSet values)).
  { rewrite Forall_forall in *. intros x Hx.
    apply Hnormal. now apply newSet_In. }
  split; [exact Hnd |]. split; [exact Hall |].
  simpl. rewrite (normalizeExtensions_fixed _ Hall).
  pose proof (newSet_nonempty values Hne) as Hne'.
  destruct (newSet values) as [| v vs] eqn:Hset; [congruence |].
  rewrite <- Hset in *. now rewrite (newSet_fixed _ Hnd).
Qed.

Lemma normalizeExtensions_nil (items : list string) :
  normalizeExtensions items = [] <-> Forall blank items.
Proof.
  unfold normalizeExtensions, blank, normalizeExtension.
  induction items as [| e items IH]; simpl.
  - split; [constructor | reflexivity].
  - destruct (trim e) as [| c t] eqn:He; simpl.
    + rewrite IH. split; [now constructor | now inversion 1].
    + split; [discriminate |].
      inversion 1 as [| ? ? Hblank _]. congruence.
Qed.

(** X2.  An array of extensions is refused exactly when every entry is empty or
    white space (in particular the empty array); so is a non-empty
    comma-separated string.  The empty string is not refused: it selects
    the default extensions. *)
Theorem buildExtensionSet_refuses (items : list string) (text : string) :
  ((exists exn, buildExtensionSet (ExtensionArray items) = inl exn)
   <-> Forall blank items)
  /\ (text <> "" ->
      ((exists exn, buildExtensionSet (ExtensionList text) = inl exn)
       <-> Forall blank (splitComma text)))
  /\ buildExtensionSet (ExtensionList "") = buildExtensionSet NoExtensions.
Proof.
  assert (Hcore : forall l,
             (exists exn,
                 match normalizeExtensions l with
                 | [] => inl (Error "At least one extension must be provided when overriding supported extensions." None)
                 | normalized => inr (newSet normalized)
                 end = (inl exn : Exception + StringSet))
             <-> Forall blank l).
  { intros l. rewrite <- normalizeExtensions_nil.
    destruct (normalizeExtensions l) as [| v vs].
    - split; [reflexivity | intros _; eexists; reflexivity].
    - split; [intros [exn H]; discriminate | discriminate]. }
  split; [apply Hcore |]. split; [| reflexivity].
  intros Htext. simpl.
  destruct text as [| c t]; [congruence |]. apply Hcore.
Qed.

(** ** [hasSupportedExtension] *)

Lemma hasUpper_toLowerCase (s : string) : hasUpper (toLowerCase s) = false.
Proof.
  induction s as [| c s IH]; simpl; [reflexivity |].
  rewrite IH, orb_false_r. unfold isUpperUnit.
  rewrite lowerUnit_idem. now rewrite Ascii.eqb_refl.
Qed.

Section Selection.

Variable path : Path.t.

(** X3.  With a list of extensions, a file is selected exactly when the
    lower-cased extension of its path is the normal form, dot added, of an
    entry of the list that is not blank: the match ignores case and
    surrounding white space of the entries, and a missing dot. *)
Theorem extension_selected (items : list string) (set : StringSet)
        (filePath : string) :
  buildExtensionSet (ExtensionArray items) = inr set ->
  hasSupportedExtension path filePath set = true
  <-> exists e,
      In e items /\ ~ blank e
      /\ toLowerCase (Path.extname path filePath)
         = withDot (normalizeExtension e).
Proof.
  intros Hbuild. simpl in Hbuild.
  assert (Hset : set = newSet (normalizeExtensions items)).
  { destruct (normalizeExtensions items); [discriminate |].
    now injection Hbuild as <-. }
  subst set. unfold hasSupportedExtension.
  rewrite has_In, newSet_In. unfold normalizeExtensions.
  rewrite in_map_iff. split.
  - intros (z & Hz & Hin). apply filter_In in Hin.
    destruct Hin as [Hin Hne]. apply in_map_iff in Hin.
    destruct Hin as (e & <- & He). exists e.
    split; [exact He |]. split; [| now symmetry].
    unfold blank. intros Hblank.
    unfold normalizeExtension in Hne. now rewrite Hblank in Hne.
  - intros (e & He & Hnb & Heq). exists (normalizeExtension e).
    split; [now symmetry |]. apply filter_In.
    split; [apply in_map_iff; now exists e |].
    unfold blank in Hnb. unfold normalizeExtension.
    destruct (trim e); [congruence | reflexivity].
Qed.

(** X4.  A ready-made [Set] is used as it is, while the extension of the file is
    lower-cased before the lookup: a set whose entries all contain a
    capital letter selects no file. *)
Theorem extension_set_verbatim (set : StringSet) (filePath : string) :
  Forall (fun e => hasUpper e = true) set ->
  buildExtensionSet (ExtensionSet set) = inr set
  /\ hasSupportedExtension path filePath set = false.
Proof.
  intros Hupper. split; [reflexivity |].
  unfold hasSupportedExtension.
  destruct (has set (toLowerCase (Path.extname path filePath))) eqn:Hhas;
    [| reflexivity].
  apply has_In in Hhas. rewrite Forall_forall in Hupper.
  specialize (Hupper _ Hhas).
  now rewrite hasUpper_toLowerCase in Hupper.
Qed.

End Selection.

(** ** The state monad of the file layer *)

(** Unfolds [processFile] into its sequence of steps. *)
Ltac run_file :=
  unfold processFile, pathExists, statIfExists, ensureDir, throwError,
    updateSummary, reading, strip, writing, raise, ret, bind;
  cbn [world summary fst snd].

Section FileLayerFacts.

Variable fsys : Fs.t.
Variable path : Path.t.
Variable parse : Parser.

Lemma bind_done {A B : Type} (m : M fsys A) (k : A -> M fsys B)
      (st st' : State fsys) (b : B) :
  bind fsys m k st = (Done b, st') ->
  exists a st1, m st = (Done a, st1) /\ k a st1 = (Done b, st').
Proof.
  unfold bind. destruct (m st) as [[a | f |] st1]; try discriminate.
  intros H. now exists a, st1.
Qed.

Lemma keepsState_world {A : Type} (m : M fsys A) :
  keepsState fsys m -> keepsWorld fsys m.
Proof. intros H st. now rewrite H. Qed.

Lemma keepsState_ret {A : Type} (a : A) : keepsState fsys (ret fsys a).
Proof. intros st. reflexivity. Qed.

Lemma keepsState_raise {A : Type} (f : Failure) :
  keepsState fsys (raise fsys (A := A) f).
Proof. intros st. reflexivity. Qed.

Lemma keepsState_bind {A B : Type} (m : M fsys A) (k : A -> M fsys B) :
  keepsState fsys m -> (forall a, keepsState fsys (k a)) ->
  keepsState fsys (bind fsys m k).
Proof.
  intros Hm Hk st. unfold bind. specialize (Hm st).
  destruct (m st) as [[a | f |] st1]; simpl in *; subst; try reflexivity.
  apply Hk.
Qed.

Lemma keepsWorld_bind {A B : Type} (m : M fsys A) (k : A -> M fsys B) :
  keepsWorld fsys m -> (forall a, keepsWorld fsys (k a)) ->
  keepsWorld fsys (bind fsys m k).
Proof.
  intros Hm Hk st. unfold bind. specialize (Hm st).
  destruct (m st) as [[a | f |] st1]; simpl in *; try assumption.
  now rewrite Hk.
Qed.

Lemma keepsState_reading {A : Type} (op : Fs.World fsys -> FsError + A) :
  keepsState fsys (reading fsys op).
Proof. intros st. unfold reading. now destruct (op (world fsys st)). Qed.

Lemma keepsWorld_updateSummary (f : Summary -> Summary) :
  keepsWorld fsys (updateSummary fsys f).
Proof. intros st. reflexivity. Qed.

Lemma keepsState_statIfExists (fsPath : string) :
  keepsState fsys (statIfExists fsys fsPath).
Proof.
  intros st. unfold statIfExists.
  destruct (Fs.stat fsys (world fsys st) fsPath) as [e | stats];
    [| reflexivity].
  now destruct (String.eqb (errorCode e) "ENOENT").
Qed.

Lemma keepsState_pathExists (fsPath : string) :
  keepsState fsys (pathExists fsys fsPath).
Proof.
  unfold pathExists. apply keepsState_bind.
  - apply keepsState_statIfExists.
  - intros a. apply keepsState_ret.
Qed.

Lemma keepsState_strip (source inputPath : string)
      (parserPlugins : option (list Plugin)) :
  keepsState fsys (strip fsys parse source inputPath parserPlugins).
Proof.
  intros st. unfold strip.
  now destruct (completion (stripCommentsFromCode parse (JsString source) _)).
Qed.

Lemma keepsState_resolveOutputForFile (filePath : string)
      (outPath : option string) :
  keepsState fsys (resolveOutputForFile fsys path filePath outPath).
Proof.
  unfold resolveOutputForFile.
  destruct (truthy outPath) as [out |]; [| apply keepsState_ret].
  apply keepsState_bind; [apply keepsState_statIfExists |].
  intros outStats.
  match goal with
  | |- context [if ?b then _ else _] => destruct b
  end; apply keepsState_ret.
Qed.

Lemma keepsState_gatherLoop (fuel : nat) (extensionSet : StringSet) :
  forall queue collected,
    keepsState fsys (gatherLoop fsys path fuel extensionSet queue collected).
Proof.
  induction fuel as [| fuel IH]; intros queue collected; simpl.
  - intros st. reflexivity.
  - destruct (rev queue) as [| current below]; [apply keepsState_ret |].
    apply keepsState_bind; [apply keepsState_reading |].
    intros entries.
    destruct (fold_left (scanEntry path current extensionSet) entries
                        (rev below, collected)) as [queue' collected'].
    apply IH.
Qed.

(** ** [processFile] *)

(** In a dry run [processFile] leaves the file system as it is. *)
Lemma processFile_dryRun (inputPath : string) (outputPath : option string)
      (overwrite : bool) (parserPlugins : option (list Plugin))
      (alwaysWrite : bool) :
  keepsWorld fsys
    (processFile fsys path parse inputPath outputPath true overwrite
                 parserPlugins alwaysWrite).
Proof.
  unfold processFile.
  apply keepsWorld_bind; [apply keepsWorld_updateSummary |]. intros _.
  apply keepsWorld_bind;
    [apply keepsState_world, keepsState_reading |]. intros source.
  apply keepsWorld_bind;
    [apply keepsState_world, keepsState_strip |]. intros r.
  cbn [negb andb].
  apply keepsWorld_bind;
    [apply keepsState_world, keepsState_ret |]. intros _.
  apply keepsWorld_bind; [apply keepsWorld_updateSummary |]. intros _.
  apply keepsWorld_updateSummary.
Qed.

(** What a successful [processFile] has done. *)
Lemma processFile_done (inputPath : string) (outputPath : option string)
      (dryRun overwrite : bool) (parserPlugins : option (list Plugin))
      (alwaysWrite : bool) (st st' : State fsys) :
  processFile fsys path parse inputPath outputPath dryRun overwrite
              parserPlugins alwaysWrite st = (Done tt, st') ->
  exists source r,
    Fs.readFile fsys (world fsys st) inputPath = inr source
    /\ completion (stripCommentsFromCode parse (JsString source)
                     {| filename := Some inputPath;
                        plugins := parserPlugins |}) = Return r
    /\ let changed := negb (String.eqb (code r) source) in
       let destPath := match outputPath with
                       | Some p => p
                       | None => inputPath
                       end in
       let willWrite :=
         negb dryRun
         && (negb (String.eqb (Path.resolve path destPath)
                              (Path.resolve path inputPath))
             || changed || alwaysWrite) in
       summary fsys st'
       = recordResult r inputPath destPath changed willWrite
           (countRemoved r (countScanned (summary fsys st)))
       /\ if willWrite
          then exists w1,
              Fs.mkdir fsys (world fsys st) (Path.dirname path destPath)
              = inr w1
              /\ Fs.writeFile fsys w1 destPath (code r)
                 = inr (world fsys st')
          else world fsys st' = world fsys st.
Proof.
  run_file.
  destruct (Fs.readFile fsys (world fsys st) inputPath) as [e | source];
    [discriminate |].
  destruct (completion (stripCommentsFromCode parse (JsString source) _))
    as [r | exn] eqn:Hr; [| discriminate].
  cbn [world summary fst snd].
  intros H. exists source, r.
  split; [reflexivity |]. split; [exact Hr |].
  cbv zeta.
  match type of H with
  | context [if ?b then _ else _] => destruct b eqn:Hwrite
  end.
  - cbn [world summary] in H.
    destruct (Fs.stat fsys (world fsys st) _) as [e | stats].
    + destruct (String.eqb (errorCode e) "ENOENT"); [| discriminate].
      cbn [andb world summary] in H.
      destruct (Fs.mkdir fsys (world fsys st) _) as [e1 | w1];
        [discriminate |].
      cbn [world summary] in H.
      destruct (Fs.writeFile fsys w1 _ (code r)) as [e2 | w2] eqn:Hw;
        [discriminate |].
      injection H as <-. cbn [world summary].
      split; [reflexivity |]. now exists w1.
    + cbn [andb world summary] in H.
      destruct (negb overwrite).
      * destruct (String.eqb _ _); discriminate.
      * cbn [world summary] in H.
        destruct (Fs.mkdir fsys (world fsys st) _) as [e1 | w1];
          [discriminate |].
        cbn [world summary] in H.
        destruct (Fs.writeFile fsys w1 _ (code r)) as [e2 | w2] eqn:Hw;
          [discriminate |].
        injection H as <-. cbn [world summary].
        split; [reflexivity |]. now exists w1.
  - injection H as <-. cbn [world summary]. split; reflexivity.
Qed.

(** X5.  Without [overwrite], [processFile] leaves the file system as it is when
    something exists at the destination. *)
Lemma processFile_keeps_existing (inputPath : string)
      (outputPath : option string) (dryRun : bool)
      (parserPlugins : option (list Plugin)) (alwaysWrite : bool)
      (st : State fsys) (stats : Stats.t) :
  Fs.stat fsys (world fsys st)
          (match outputPath with Some p => p | None => inputPath end)
  = inr stats ->
  world fsys (snd (processFile fsys path parse inputPath outputPath dryRun
                               false parserPlugins alwaysWrite st))
  = world fsys st.
Proof.
  intros Hstat. run_file.
  destruct (Fs.readFile fsys (world fsys st) inputPath) as [e | source];
    [reflexivity |].
  destruct (completion (stripCommentsFromCode parse (JsString source) _))
    as [r | exn]; [| reflexivity].
  cbn [world summary fst snd].
  match goal with
  | |- context [if ?b then _ else _] => destruct b
  end; [| reflexivity].
  cbn [world summary]. rewrite Hstat. cbn [andb negb].
  now destruct (String.eqb _ _).
Qed.

(** ** Summaries *)

Lemma sumOver_app (f : FileResult.t -> Z) (a b : list FileResult.t) :
  sumOver f (a ++ b) = sumOver f a + sumOver f b.
Proof.
  unfold sumOver. induction a as [| x a IH]; simpl; [reflexivity |].
  rewrite IH. lia.
Qed.

Lemma countChanged_app (a b : list FileResult.t) :
  countChanged (a ++ b) = countChanged a + countChanged b.
Proof. unfold countChanged. rewrite filter_app, length_app. lia. Qed.

Lemma countChanged_bounds (rs : list FileResult.t) :
  0 <= countChanged rs <= Z.of_nat (List.length rs).
Proof.
  unfold countChanged.
  pose proof (filter_length_le
                (fun r => 0 <? FileResult.commentCount r) rs).
  lia.
Qed.

Lemma sumOver_nonneg (f : FileResult.t -> Z) (rs : list FileResult.t) :
  Forall (fun r => 0 <= f r) rs -> 0 <= sumOver f rs.
Proof.
  unfold sumOver. induction 1 as [| r rs Hr _ IH]; simpl; lia.
Qed.

Lemma excised_wellFormed (ranges : list Range) :
  forall cur,
    Forall wellFormed ranges -> Forall wellFormed (excised cur ranges).
Proof.
  induction ranges as [| r rest IH]; intros cur Hwf; simpl; [constructor |].
  inversion Hwf as [| ? ? Hr Hrest]; subst.
  destruct (start r <? cur); [now apply IH |].
  constructor; [exact Hr | now apply IH].
Qed.

Lemma totalSpan_nonneg (ranges : list Range) :
  Forall wellFormed ranges -> 0 <= totalSpan ranges.
Proof.
  induction 1 as [| r rest Hr _ IH]; simpl; [lia |].
  unfold wellFormed, span in *. lia.
Qed.

(** What every result of [stripCommentsFromCode] satisfies. *)
Lemma strip_result_facts (source : string) (parserOptions : ParserOptions)
      (r : StripResult) :
  completion (stripCommentsFromCode parse (JsString source) parserOptions)
  = Return r ->
  0 <= commentCount r
  /\ 0 <= removedChars r
  /\ (commentCount r = 0 -> removedChars r = 0 /\ code r = source).
Proof.
  intros Hrun.
  destruct (strip_return_inv parse source parserOptions r Hrun)
    as [tree Htree].
  rewrite (strip_resolved parse source parserOptions tree Htree) in Hrun.
  cbv zeta in Hrun.
  set (ranges := normalizeRanges (commentsOf tree)) in Hrun.
  assert (Hwf : Forall wellFormed ranges)
    by apply normalizeRanges_wellFormed.
  rewrite (removeRanges_excised source ranges Hwf) in Hrun.
  injection Hrun as <-.
  cbn [code commentCount removedChars removedRanges fst snd].
  split; [lia |]. split.
  - apply totalSpan_nonneg. now apply excised_wellFormed.
  - intros Hzero. destruct ranges as [| x xs]; [| simpl in Hzero; lia].
    split; [reflexivity |].
    unfold without. simpl. apply keepAt_all. reflexivity.
Qed.

Lemma countChanged_one (x : FileResult.t) :
  countChanged [x] = if 0 <? FileResult.commentCount x then 1 else 0.
Proof.
  unfold countChanged. simpl.
  now destruct (0 <? FileResult.commentCount x).
Qed.

Lemma sumOver_one (f : FileResult.t -> Z) (x : FileResult.t) :
  sumOver f [x] = f x.
Proof. unfold sumOver. simpl. lia. Qed.

Lemma consistent_step (s : Summary) (r : StripResult)
      (inputPath destPath : string) (changed willWrite : bool) :
  consistent s ->
  0 <= commentCount r ->
  (commentCount r = 0 -> removedChars r = 0) ->
  consistent (recordResult r inputPath destPath changed willWrite
                (countRemoved r (countScanned s))).
Proof.
  intros [Hscan Hchg Hcom Hbytes] Hcount Hzero.
  unfold countRemoved.
  destruct (Z.ltb_spec 0 (commentCount r)) as [Hpos | Hnone];
    constructor;
    cbn [recordResult countScanned filesScanned filesChanged
         commentsRemoved bytesRemoved results];
    rewrite ?length_app, ?countChanged_app, ?sumOver_app,
      ?countChanged_one, ?sumOver_one;
    cbn [FileResult.commentCount FileResult.removedChars List.length].
  - lia.
  - destruct (Z.ltb_spec 0 (commentCount r)); lia.
  - lia.
  - lia.
  - lia.
  - destruct (Z.ltb_spec 0 (commentCount r)); lia.
  - lia.
  - assert (Hc : commentCount r = 0) by lia. specialize (Hzero Hc). lia.
Qed.

Lemma processFile_sound (inputPath : string) (outputPath : option string)
      (dryRun overwrite : bool) (parserPlugins : option (list Plugin))
      (alwaysWrite : bool) (st st' : State fsys) :
  processFile fsys path parse inputPath outputPath dryRun overwrite
              parserPlugins alwaysWrite st = (Done tt, st') ->
  consistent (summary fsys st) ->
  nonnegative (summary fsys st) ->
  consistent (summary fsys st')
  /\ nonnegative (summary fsys st')
  /\ map FileResult.inputPath (results (summary fsys st'))
     = (map FileResult.inputPath (results (summary fsys st))
        ++ [inputPath])%list
  /\ target (summary fsys st') = target (summary fsys st).
Proof.
  intros Hrun Hcons Hnn.
  destruct (processFile_done _ _ _ _ _ _ _ _ Hrun)
    as (source & r & _ & Hr & Hsum & _).
  cbv zeta in Hsum.
  destruct (strip_result_facts _ _ _ Hr) as (Hcount & Hchars & Hzero).
  rewrite Hsum. split; [| split; [| split]].
  - apply consistent_step; [exact Hcons | exact Hcount |].
    intros Hc. now destruct (Hzero Hc).
  - unfold nonnegative in *. unfold countRemoved.
    destruct (0 <? commentCount r);
      cbn [recordResult countScanned results];
      (apply Forall_app; split; [exact Hnn |]);
      repeat constructor; assumption.
  - unfold countRemoved.
    destruct (0 <? commentCount r);
      cbn [recordResult countScanned results];
      now rewrite map_app.
  - unfold countRemoved. now destruct (0 <? commentCount r).
Qed.

Lemma processFiles_sound (dirPath : string) (outputBase : option string)
      (dryRun overwrite : bool) (parserPlugins : option (list Plugin))
      (files : list string) :
  forall st st',
    processFiles fsys path parse dirPath outputBase dryRun overwrite
                 parserPlugins files st = (Done tt, st') ->
    consistent (summary fsys st) ->
    nonnegative (summary fsys st) ->
    consistent (summary fsys st')
    /\ nonnegative (summary fsys st')
    /\ map FileResult.inputPath (results (summary fsys st'))
       = (map FileResult.inputPath (results (summary fsys st))
          ++ files)%list
    /\ target (summary fsys st') = target (summary fsys st).
Proof.
  induction files as [| f files IH]; intros st st' Hrun Hcons Hnn.
  - simpl in Hrun. unfold ret in Hrun. injection Hrun as <-.
    rewrite app_nil_r. split; [exact Hcons |]. split; [exact Hnn |].
    split; reflexivity.
  - simpl in Hrun. apply bind_done in Hrun.
    destruct Hrun as ([] & st1 & Hfile & Hrest).
    destruct (processFile_sound _ _ _ _ _ _ _ _ Hfile Hcons Hnn)
      as (Hcons1 & Hnn1 & Hmap1 & Htarget1).
    destruct (IH st1 st' Hrest Hcons1 Hnn1)
      as (Hcons' & Hnn' & Hmap' & Htarget').
    split; [exact Hcons' |]. split; [exact Hnn' |]. split.
    + rewrite Hmap', Hmap1, <- app_assoc. reflexivity.
    + congruence.
Qed.

Lemma processFiles_dryRun (dirPath : string) (outputBase : option string)
      (overwrite : bool) (parserPlugins : option (list Plugin))
      (files : list string) :
  keepsWorld fsys
    (processFiles fsys path parse dirPath outputBase true overwrite
                  parserPlugins files).
Proof.
  induction files as [| f files IH]; simpl.
  - apply keepsState_world, keepsState_ret.
  - apply keepsWorld_bind; [apply processFile_dryRun |].
    intros _. exact IH.
Qed.

Lemma keepsState_outputCheck (outputBase : option string) :
  keepsState fsys
    (match truthy outputBase with
     | Some base =>
         bind fsys (statIfExists fsys base)
           (fun existing =>
              match existing with
              | Some stats =>
                  if negb (Stats.isDirectory stats)
                  then throwError fsys
                         "Output path must be a directory when processing a directory."
                  else ret fsys tt
              | None => ret fsys tt
              end)
     | None => ret fsys tt
     end).
Proof.
  destruct (truthy outputBase) as [base |]; [| apply keepsState_ret].
  apply keepsState_bind; [apply keepsState_statIfExists |].
  intros [stats |]; [| apply keepsState_ret].
  destruct (negb (Stats.isDirectory stats));
    [apply keepsState_raise | apply keepsState_ret].
Qed.

Lemma processDirectory_dryRun (fuel : nat) (dirPath : string)
      (outputBase : option string) (overwrite : bool)
      (extensionSet : StringSet) (parserPlugins : option (list Plugin)) :
  keepsWorld fsys
    (processDirectory fsys path parse fuel dirPath outputBase true
                      overwrite extensionSet parserPlugins).
Proof.
  unfold processDirectory.
  apply keepsWorld_bind;
    [apply keepsState_world, keepsState_outputCheck |]. intros _.
  apply keepsWorld_bind;
    [apply keepsState_world, keepsState_gatherLoop |]. intros files.
  apply processFiles_dryRun.
Qed.

(** What a successful [processDirectory] has done. *)
Lemma processDirectory_done (fuel : nat) (dirPath : string)
      (outputBase : option string) (dryRun overwrite : bool)
      (extensionSet : StringSet) (parserPlugins : option (list Plugin))
      (st st' : State fsys) :
  processDirectory fsys path parse fuel dirPath outputBase dryRun overwrite
                   extensionSet parserPlugins st = (Done tt, st') ->
  exists files,
    gatherFiles fsys path fuel dirPath extensionSet st = (Done files, st)
    /\ processFiles fsys path parse dirPath outputBase dryRun overwrite
                    parserPlugins files st = (Done tt, st').
Proof.
  unfold processDirectory. intros Hrun.
  apply bind_done in Hrun. destruct Hrun as ([] & st1 & Hcheck & Hrun).
  assert (Hst1 : st1 = st).
  { pose proof (keepsState_outputCheck outputBase st) as Hkeep.
    rewrite Hcheck in Hkeep. exact Hkeep. }
  subst st1.
  apply bind_done in Hrun. destruct Hrun as (files & st2 & Hgather & Hrun).
  assert (Hst2 : st2 = st).
  { pose proof (keepsState_gatherLoop fuel extensionSet [dirPath] [] st)
      as Hkeep.
    unfold gatherFiles in Hgather. rewrite Hgather in Hkeep. exact Hkeep. }
  subst st2. now exists files.
Qed.

Lemma gatherLoop_summary (fuel : nat) (extensionSet : StringSet) :
  forall queue collected (w : Fs.World fsys) (s1 s2 : Summary),
    fst (gatherLoop fsys path fuel extensionSet queue collected
                    {| world := w; summary := s1 |})
    = fst (gatherLoop fsys path fuel extensionSet queue collected
                      {| world := w; summary := s2 |}).
Proof.
  induction fuel as [| fuel IH]; intros queue collected w s1 s2; simpl;
    [reflexivity |].
  destruct (rev queue) as [| current below]; [reflexivity |].
  unfold bind, reading. cbn [world].
  destruct (Fs.readdir fsys w current) as [e | entries]; [reflexivity |].
  destruct (fold_left (scanEntry path current extensionSet) entries
                      (rev below, collected)) as [queue' collected'].
  apply IH.
Qed.

Lemma createEmptySummary_sound (target : string)
      (outputBase : option string) :
  consistent (createEmptySummary target outputBase)
  /\ nonnegative (createEmptySummary target outputBase).
Proof. split; [constructor; reflexivity | constructor]. Qed.

(** The run of [processFile] on a file that is its own destination. *)
Lemma processFile_in_place (p source : string) (r : StripResult)
      (stats : Stats.t) (dryRun overwrite : bool)
      (parserPlugins : option (list Plugin)) (st : State fsys) :
  Fs.readFile fsys (world fsys st) p = inr source ->
  completion (stripCommentsFromCode parse (JsString source)
                {| filename := Some p; plugins := parserPlugins |})
  = Return r ->
  Fs.stat fsys (world fsys st) p = inr stats ->
  dryRun || overwrite = true ->
  processFile fsys path parse p (Some p) dryRun overwrite parserPlugins
              false st
  = let changed := negb (String.eqb (code r) source) in
    let willWrite := negb dryRun && changed in
    let scanned := countScanned (summary fsys st) in
    let final := recordResult r p p changed willWrite
                              (countRemoved r scanned) in
    if willWrite then
      match Fs.mkdir fsys (world fsys st) (Path.dirname path p) with
      | inl e => (Raised (Fs e),
                  {| world := world fsys st; summary := scanned |})
      | inr w1 =>
          match Fs.writeFile fsys w1 p (code r) with
          | inl e => (Raised (Fs e), {| world := w1; summary := scanned |})
          | inr w2 => (Done tt, {| world := w2; summary := final |})
          end
      end
    else (Done tt, {| world := world fsys st; summary := final |}).
Proof.
  intros Hread Hstrip Hstat Hallowed. run_file.
  rewrite Hread. cbn [world summary fst snd]. rewrite Hstrip.
  rewrite String.eqb_refl. cbn [negb orb]. rewrite orb_false_r.
  cbv zeta.
  destruct (negb dryRun && negb (String.eqb (code r) source)) eqn:Hwrite;
    [| reflexivity].
  cbn [world summary]. rewrite Hstat.
  assert (Hover : overwrite = true).
  { destruct dryRun; [discriminate | exact Hallowed]. }
  rewrite Hover. cbn [negb andb world summary].
  destruct (Fs.mkdir fsys (world fsys st) (Path.dirname path p))
    as [e | w1]; [reflexivity |].
  cbn [world summary].
  now destruct (Fs.writeFile fsys w1 p (code r)).
Qed.

End FileLayerFacts.

(** ** [stripPath] *)

Section StripPath.

Variable fsys : Fs.t.
Variable path : Path.t.
Variable parse : Parser.

(** X6.  In a dry run, and also when neither [overwrite] nor an output path is
    given, [stripPath] leaves the file system exactly as it found it,
    however it completes. *)
Theorem stripPath_leaves_files_alone (fuel : nat)
        (targetPath : option string) (options : StripOptions)
        (w : Fs.World fsys) :
  dryRun options = true
  \/ (overwrite options = false /\ truthy (outPath options) = None) ->
  snd (stripPath fsys path parse fuel targetPath options w) = w.
Proof.
  intros Hsafe. unfold stripPath.
  destruct (truthy targetPath) as [t |]; [| reflexivity].
  destruct (dryRun options) eqn:Hdry.
  - cbn [negb andb].
    destruct (Fs.stat fsys w (Path.resolve path t)) as [e | stats].
    { now destruct (String.eqb (errorCode e) "ENOENT"). }
    destruct (buildExtensionSet (extensions options)) as [exn | set];
      [reflexivity |].
    match goal with
    | |- snd (match ?body ?init with _ => _ end) = _ =>
        assert (Hkeep : keepsWorld fsys body);
        [| specialize (Hkeep init);
           destruct (body init) as [[[] | f |] st]; exact Hkeep]
    end.
    destruct (Stats.isDirectory stats); [apply processDirectory_dryRun |].
    destruct (Stats.isFile stats);
      [| apply keepsState_world, keepsState_raise].
    destruct (negb (hasSupportedExtension path _ set));
      [apply keepsState_world, keepsState_raise |].
    apply keepsWorld_bind;
      [apply keepsState_world, keepsState_resolveOutputForFile |].
    intros outInfo. apply processFile_dryRun.
  - destruct Hsafe as [Hdry' | [Hover Hout]]; [discriminate |].
    now rewrite Hover, Hout.
Qed.

(** X7.  The summary a successful [stripPath] returns agrees with its own list
    of results: [filesScanned] is the number of results, [filesChanged] the
    number of results with comments, [commentsRemoved] and [bytesRemoved]
    the sums of their counts; no number is negative and [filesChanged] is
    at most [filesScanned]; [target] is the resolved target path. *)
Theorem stripPath_summary (fuel : nat) (targetPath : option string)
        (options : StripOptions) (w w' : Fs.World fsys) (s : Summary) :
  stripPath fsys path parse fuel targetPath options w = (Done s, w') ->
  consistent s
  /\ nonnegative s
  /\ 0 <= filesChanged s <= filesScanned s
  /\ 0 <= commentsRemoved s
  /\ 0 <= bytesRemoved s
  /\ exists t, truthy targetPath = Some t
               /\ target s = Path.resolve path t.
Proof.
  unfold stripPath.
  destruct (truthy targetPath) as [t |]; [| discriminate].
  match goal with
  | |- (if ?guard then _ else _) = _ -> _ =>
      destruct guard; [discriminate |]
  end.
  destruct (Fs.stat fsys w (Path.resolve path t)) as [e | stats].
  { destruct (String.eqb (errorCode e) "ENOENT"); discriminate. }
  destruct (buildExtensionSet (extensions options)) as [exn | set];
    [discriminate |].
  match goal with
  | |- match ?body ?init with _ => _ end = _ -> _ =>
      set (run := body); set (initial := init)
  end.
  destruct (run initial) as [[[] | f |] st] eqn:Hrun; try discriminate.
  intros H. injection H as <- <-.
  destruct (createEmptySummary_sound
              (Path.resolve path t)
              (match truthy (outPath options) with
               | Some out => Some (Path.resolve path out)
               | None => None
               end)) as [Hcons0 Hnn0].
  assert (Hsound : consistent (summary fsys st)
                   /\ nonnegative (summary fsys st)
                   /\ target (summary fsys st) = Path.resolve path t).
  { subst run. cbv beta in Hrun.
    destruct (Stats.isDirectory stats).
    - apply processDirectory_done in Hrun.
      destruct Hrun as (files & _ & Hfiles).
      destruct (processFiles_sound fsys path parse _ _ _ _ _ _ _ _ Hfiles
                                   Hcons0 Hnn0)
        as (Hc & Hn & _ & Ht).
      split; [exact Hc | split; [exact Hn | exact Ht]].
    - destruct (Stats.isFile stats); [| discriminate].
      destruct (negb (hasSupportedExtension path _ set)); [discriminate |].
      apply bind_done in Hrun.
      destruct Hrun as (outInfo & st1 & Hout & Hfile).
      assert (Hst1 : st1 = initial).
      { pose proof (keepsState_resolveOutputForFile fsys path
                      (Path.resolve path t)
                      (match truthy (outPath options) with
                       | Some out => Some (Path.resolve path out)
                       | None => None
                       end) initial) as Hkeep.
        rewrite Hout in Hkeep. exact Hkeep. }
      subst st1.
      destruct (processFile_sound fsys path parse _ _ _ _ _ _ _ _ Hfile
                                  Hcons0 Hnn0)
        as (Hc & Hn & _ & Ht).
      split; [exact Hc | split; [exact Hn | exact Ht]]. }
  destruct Hsound as (Hcons & Hnn & Htarget).
  split; [exact Hcons |]. split; [exact Hnn |].
  destruct Hcons as [Hscan Hchg Hcom Hbytes].
  split.
  { rewrite Hscan, Hchg. apply countChanged_bounds. }
  split.
  { rewrite Hcom. apply sumOver_nonneg.
    eapply Forall_impl; [| exact Hnn]. now intros r [H _]. }
  split.
  { rewrite Hbytes. apply sumOver_nonneg.
    eapply Forall_impl; [| exact Hnn]. now intros r [_ H]. }
  now exists t.
Qed.

(** X8.  For a directory, a successful [stripPath] reports one result for each
    file [gatherFiles] found, in the order in which they were found, and
    [filesScanned] is their number. *)
Theorem stripPath_directory_results (fuel : nat)
        (targetPath : option string) (t : string)
        (options : StripOptions) (stats : Stats.t)
        (w w' : Fs.World fsys) (s : Summary) :
  truthy targetPath = Some t ->
  Fs.stat fsys w (Path.resolve path t) = inr stats ->
  Stats.isDirectory stats = true ->
  stripPath fsys path parse fuel targetPath options w = (Done s, w') ->
  exists set files,
    buildExtensionSet (extensions options) = inr set
    /\ filesUnder fsys path fuel (Path.resolve path t) set w = Done files
    /\ map FileResult.inputPath (results s) = files
    /\ filesScanned s = Z.of_nat (List.length files).
Proof.
  intros Htarget Hstat Hdir. unfold stripPath.
  rewrite Htarget.
  match goal with
  | |- (if ?guard then _ else _) = _ -> _ =>
      destruct guard; [discriminate |]
  end.
  rewrite Hstat.
  destruct (buildExtensionSet (extensions options)) as [exn | set];
    [discriminate |].
  rewrite Hdir.
  match goal with
  | |- match ?body ?init with _ => _ end = _ -> _ =>
      set (initial := init);
      destruct (body initial) as [[[] | f |] st] eqn:Hrun;
      try discriminate
  end.
  intros H. injection H as <- <-.
  apply processDirectory_done in Hrun.
  destruct Hrun as (files & Hgather & Hfiles).
  destruct (createEmptySummary_sound
              (Path.resolve path t)
              (match truthy (outPath options) with
               | Some out => Some (Path.resolve path out)
               | None => None
               end)) as [Hcons0 Hnn0].
  destruct (processFiles_sound fsys path parse _ _ _ _ _ _ _ _ Hfiles
                               Hcons0 Hnn0)
    as ([Hscan _ _ _] & _ & Hmap & _).
  exists set, files. split; [reflexivity |]. split; [| split].
  - unfold filesUnder, gatherFiles in *.
    rewrite (gatherLoop_summary fsys path fuel set [Path.resolve path t] []
               w _ (summary fsys initial)).
    change {| world := w; summary := summary fsys initial |} with initial.
    now rewrite Hgather.
  - exact Hmap.
  - rewrite Hscan, <- (length_map FileResult.inputPath), Hmap.
    reflexivity.
Qed.

(** X9.  A file in which the parser finds no comment is not rewritten in place:
    with [overwrite] and no output path, [stripPath] on such a file
    succeeds, leaves the file system as it is, and reports one result that
    is neither changed nor written. *)
Theorem stripPath_no_comment_no_write (fuel : nat)
        (targetPath : option string) (t source : string)
        (options : StripOptions) (stats : Stats.t) (set : StringSet)
        (r : StripResult) (w : Fs.World fsys) :
  truthy targetPath = Some t ->
  truthy (outPath options) = None ->
  overwrite options = true ->
  Fs.stat fsys w (Path.resolve path t) = inr stats ->
  Stats.isDirectory stats = false ->
  Stats.isFile stats = true ->
  buildExtensionSet (extensions options) = inr set ->
  hasSupportedExtension path (Path.resolve path t) set = true ->
  Fs.readFile fsys w (Path.resolve path t) = inr source ->
  completion (stripCommentsFromCode parse (JsString source)
                {| filename := Some (Path.resolve path t);
                   plugins := parserPlugins options |})
  = Return r ->
  commentCount r = 0 ->
  exists s,
    stripPath fsys path parse fuel targetPath options w = (Done s, w)
    /\ filesScanned s = 1
    /\ filesChanged s = 0
    /\ results s
       = [ {| FileResult.inputPath := Path.resolve path t;
              FileResult.outputPath := Path.resolve path t;
              FileResult.commentCount := 0;
              FileResult.removedChars := 0;
              FileResult.removedRanges := removedRanges r;
              FileResult.changed := false;
              FileResult.wroteFile := false |} ].
Proof.
  intros Htarget Hout Hover Hstat Hdir Hfile Hset Hext Hread Hstrip Hnone.
  destruct (strip_result_facts parse _ _ _ Hstrip) as (_ & _ & Hzero).
  destruct (Hzero Hnone) as [Hchars Hcode].
  unfold stripPath.
  rewrite Htarget, Hout, Hover, Hstat, Hset, Hdir, Hfile, Hext.
  rewrite andb_false_r. cbn [negb andb].
  unfold resolveOutputForFile. cbn [truthy].
  unfold bind at 1. unfold ret at 1. cbn [fst snd].
  rewrite (processFile_in_place fsys path parse _ source r stats
             (dryRun options) true (parserPlugins options));
    [| exact Hread | exact Hstrip | exact Hstat | apply orb_true_r].
  cbv zeta. rewrite Hcode, String.eqb_refl.
  cbn [negb]. rewrite andb_false_r.
  eexists. split; [reflexivity |].
  unfold countRemoved. rewrite Hnone, Hchars.
  cbn. repeat split. now rewrite Hnone, Hchars.
Qed.

(** X10.  With [overwrite], no output path and no dry run, a file whose stripped
    text differs from its content is replaced by exactly that text: the
    directory of the file is ensured, the text returned by
    [stripCommentsFromCode] is written to the resolved path of the file,
    and the result is reported as changed and written. *)
Theorem stripPath_writes_stripped_text (fuel : nat)
        (targetPath : option string) (t source : string)
        (options : StripOptions) (stats : Stats.t) (set : StringSet)
        (r : StripResult) (w w1 w2 : Fs.World fsys) :
  truthy targetPath = Some t ->
  truthy (outPath options) = None ->
  dryRun options = false ->
  overwrite options = true ->
  Fs.stat fsys w (Path.resolve path t) = inr stats ->
  Stats.isDirectory stats = false ->
  Stats.isFile stats = true ->
  buildExtensionSet (extensions options) = inr set ->
  hasSupportedExtension path (Path.resolve path t) set = true ->
  Fs.readFile fsys w (Path.resolve path t) = inr source ->
  completion (stripCommentsFromCode parse (JsString source)
                {| filename := Some (Path.resolve path t);
                   plugins := parserPlugins options |})
  = Return r ->
  code r <> source ->
  Fs.mkdir fsys w (Path.dirname path (Path.resolve path t)) = inr w1 ->
  Fs.writeFile fsys w1 (Path.resolve path t) (code r) = inr w2 ->
  exists s,
    stripPath fsys path parse fuel targetPath options w = (Done s, w2)
    /\ results s
       = [ {| FileResult.inputPath := Path.resolve path t;
              FileResult.outputPath := Path.resolve path t;
              FileResult.commentCount := commentCount r;
              FileResult.removedChars := removedChars r;
              FileResult.removedRanges := removedRanges r;
              FileResult.changed := true;
              FileResult.wroteFile := true |} ].
Proof.
  intros Htarget Hout Hdry Hover Hstat Hdir Hfile Hset Hext Hread Hstrip
         Hdiff Hmkdir Hwrite.
  unfold stripPath.
  rewrite Htarget, Hout, Hdry, Hover, Hstat, Hset, Hdir, Hfile, Hext.
  cbn [negb andb].
  unfold resolveOutputForFile. cbn [truthy].
  unfold bind at 1. unfold ret at 1. cbn [fst snd].
  rewrite (processFile_in_place fsys path parse _ source r stats
             false true (parserPlugins options));
    [| exact Hread | exact Hstrip | exact Hstat | reflexivity].
  cbv zeta.
  apply String.eqb_neq in Hdiff. rewrite Hdiff. cbn [negb andb].
  cbn [world summary]. rewrite Hmkdir, Hwrite.
  eexists. split; [reflexivity |].
  unfold countRemoved. now destruct (0 <? commentCount r).
Qed.

End StripPath.

(** ** [gatherFiles] *)

Section Gather.

Variable fsys : Fs.t.
Variable path : Path.t.
Variable extensionSet : StringSet.

Lemma scanEntry_fold (current : string) (entries : list Dirent.t) :
  forall queue collected,
    fold_left (scanEntry path current extensionSet) entries
              (queue, collected)
    = ((queue ++ subdirectories path current entries)%list,
       (collected ++ supportedFiles path current extensionSet entries)%list).
Proof.
  unfold subdirectories, supportedFiles.
  induction entries as [| e entries IH]; intros queue collected; simpl.
  - now rewrite !app_nil_r.
  - destruct (Dirent.isSymbolicLink e); cbn [negb andb]; [apply IH |].
    destruct (Dirent.isDirectory e); cbn [negb andb].
    + rewrite IH. simpl. now rewrite <- app_assoc.
    + destruct (Dirent.isFile e && hasSupportedExtension path _ _).
      * rewrite IH. simpl. now rewrite <- app_assoc.
      * apply IH.
Qed.

Lemma queue_top (queue : list string) (current : string)
      (below : list string) :
  rev queue = current :: below -> queue = (rev below ++ [current])%list.
Proof.
  intros H. rewrite <- (rev_involutive queue), H. reflexivity.
Qed.

(** One round of the loop, in terms of the listing of the top directory. *)
Lemma gatherLoop_round (fuel : nat) (beneath : list string)
      (current : string) (collected : list string) (st : State fsys) :
  gatherLoop fsys path (S fuel) extensionSet
             (beneath ++ [current]) collected st
  = match Fs.readdir fsys (world fsys st) current with
    | inl e => (Raised (Fs e), st)
    | inr entries =>
        gatherLoop fsys path fuel extensionSet
          (beneath ++ subdirectories path current entries)
          (collected ++ supportedFiles path current extensionSet entries)
          st
    end.
Proof.
  cbn [gatherLoop]. rewrite rev_app_distr. cbn [rev app].
  unfold bind, reading.
  destruct (Fs.readdir fsys (world fsys st) current) as [e | entries];
    [reflexivity |].
  now rewrite scanEntry_fold, rev_involutive.
Qed.

Lemma gatherLoop_empty (fuel : nat) (collected : list string)
      (st : State fsys) :
  gatherLoop fsys path (S fuel) extensionSet [] collected st
  = (Done collected, st).
Proof. reflexivity. Qed.

Lemma under_step (w : Fs.World fsys) (dir : string)
      (entries : list Dirent.t) (f : string) :
  Fs.readdir fsys w dir = inr entries ->
  under fsys path w extensionSet dir f
  <-> In f (supportedFiles path dir extensionSet entries)
      \/ exists sub, In sub (subdirectories path dir entries)
                     /\ under fsys path w extensionSet sub f.
Proof.
  intros Hread. split.
  - inversion 1 as [d es g Hr Hin | d es sub g Hr Hin Hsub]; subst;
      rewrite Hread in Hr; injection Hr as <-.
    + now left.
    + right. now exists sub.
  - intros [Hin | (sub & Hin & Hsub)].
    + now apply under_here with entries.
    + now apply under_below with entries sub.
Qed.

Lemma gatherLoop_exact (fuel : nat) (st : State fsys) :
  forall queue collected files,
    fst (gatherLoop fsys path fuel extensionSet queue collected st)
    = Done files ->
    forall f,
      In f files
      <-> In f collected
          \/ exists d, In d queue
                       /\ under fsys path (world fsys st) extensionSet d f.
Proof.
  induction fuel as [| fuel IH]; intros queue collected files Hrun f;
    [discriminate |].
  destruct queue as [| current beneath _] using rev_ind.
  - rewrite gatherLoop_empty in Hrun. injection Hrun as <-.
    split; [now left | intros [H | (d & [] & _)]; exact H].
  - rewrite gatherLoop_round in Hrun.
    destruct (Fs.readdir fsys (world fsys st) current) as [e | entries]
      eqn:Hread; [discriminate |].
    rewrite (IH _ _ _ Hrun f). rewrite !in_app_iff.
    split.
    + intros [[Hc | Hf] | (d & Hd & Hu)].
      * now left.
      * right. exists current. rewrite in_app_iff. split; [right; now left |].
        apply (under_step _ _ _ _ Hread). now left.
      * apply in_app_iff in Hd. destruct Hd as [Hd | Hd].
        -- right. exists d. rewrite in_app_iff. split; [now left | exact Hu].
        -- right. exists current. rewrite in_app_iff.
           split; [right; now left |].
           apply (under_step _ _ _ _ Hread). right. now exists d.
    + intros [Hc | (d & Hd & Hu)]; [now left; left |].
      apply in_app_iff in Hd. destruct Hd as [Hd | [<- | []]].
      * right. exists d. rewrite in_app_iff. split; [now left | exact Hu].
      * apply (under_step _ _ _ _ Hread) in Hu.
        destruct Hu as [Hf | (sub & Hsub & Hu)].
        -- left. now right.
        -- right. exists sub. rewrite in_app_iff.
           split; [now right | exact Hu].
Qed.

(** X11.  The files [gatherFiles] returns are exactly the regular files with a
    supported extension in the directory and in the directories below it;
    symbolic links are neither returned nor followed. *)
Theorem gatherFiles_exact (fuel : nat) (dirPath : string)
        (w : Fs.World fsys) (files : list string) :
  filesUnder fsys path fuel dirPath extensionSet w = Done files ->
  forall f, In f files <-> under fsys path w extensionSet dirPath f.
Proof.
  unfold filesUnder, gatherFiles. intros Hrun f.
  rewrite (gatherLoop_exact _ _ _ _ _ Hrun f). cbn [world].
  split.
  - intros [[] | (d & [<- | []] & Hu)]. exact Hu.
  - intros Hu. right. exists dirPath. split; [now left | exact Hu].
Qed.

Lemma gatherLoop_more_fuel (fuel : nat) (st : State fsys) :
  forall queue collected,
    fst (gatherLoop fsys path fuel extensionSet queue collected st)
    <> OutOfFuel ->
    forall extra,
      fst (gatherLoop fsys path (fuel + extra) extensionSet queue
                      collected st)
      = fst (gatherLoop fsys path fuel extensionSet queue collected st).
Proof.
  induction fuel as [| fuel IH]; intros queue collected Hrun extra;
    [now contradiction Hrun |].
  change (S fuel + extra)%nat with (S (fuel + extra)).
  destruct queue as [| current beneath _] using rev_ind.
  - now rewrite !gatherLoop_empty.
  - rewrite gatherLoop_round in Hrun. rewrite !gatherLoop_round.
    destruct (Fs.readdir fsys (world fsys st) current) as [e | entries];
      [reflexivity |].
    now apply IH.
Qed.

(** The directories on top of the queue are finished before those beneath
    are looked at. *)
Lemma gatherLoop_stack (fuel : nat) (st : State fsys)
      (beneath : list string) :
  forall top collected,
    match fst (gatherLoop fsys path fuel extensionSet top collected st) with
    | Done collected' =>
        forall k,
          fst (gatherLoop fsys path k extensionSet beneath collected' st)
          <> OutOfFuel ->
          fst (gatherLoop fsys path (fuel + k) extensionSet
                          (beneath ++ top) collected st)
          = fst (gatherLoop fsys path k extensionSet beneath collected' st)
    | Raised f =>
        forall k,
          fst (gatherLoop fsys path (fuel + k) extensionSet
                          (beneath ++ top) collected st)
          = Raised f
    | OutOfFuel => True
    end.
Proof.
  induction fuel as [| fuel IH]; intros top collected; [exact I |].
  destruct top as [| current top _] using rev_ind.
  - rewrite gatherLoop_empty. cbn [fst]. intros k Hk.
    rewrite app_nil_r, Nat.add_comm.
    now apply gatherLoop_more_fuel.
  - rewrite gatherLoop_round.
    change (S fuel + ?k)%nat with (S (fuel + k)).
    rewrite app_assoc.
    destruct (Fs.readdir fsys (world fsys st) current) as [e | entries]
      eqn:Hread.
    + cbn [fst]. intros k. now rewrite gatherLoop_round, Hread.
    + specialize (IH (top ++ subdirectories path current entries)%list
                     (collected
                      ++ supportedFiles path current extensionSet
                                        entries)%list).
      destruct (fst (gatherLoop fsys path fuel extensionSet
                       (top ++ subdirectories path current entries)
                       (collected
                        ++ supportedFiles path current extensionSet
                                          entries) st))
        as [collected' | f |]; [| | exact I].
      * intros k Hk. change (S fuel + k)%nat with (S (fuel + k)).
        rewrite gatherLoop_round, Hread, <- app_assoc. now apply IH.
      * intros k. change (S fuel + k)%nat with (S (fuel + k)).
        rewrite gatherLoop_round, Hread, <- app_assoc. apply IH.
Qed.

Lemma gatherLoop_terminates (st : State fsys) (rank : string -> nat) :
  (forall dir entries sub,
      Fs.readdir fsys (world fsys st) dir = inr entries ->
      In sub (subdirectories path dir entries) ->
      (rank sub < rank dir)%nat) ->
  forall bound queue,
    Forall (fun d => (rank d < bound)%nat) queue ->
    forall collected,
    exists fuel,
      fst (gatherLoop fsys path fuel extensionSet queue collected st)
      <> OutOfFuel.
Proof.
  intros Hrank.
  induction bound as [| bound IHbound]; intros queue Hqueue.
  - destruct queue as [| d queue].
    + intros collected. exists 1%nat. discriminate.
    + inversion Hqueue; subst. lia.
  - induction queue as [| current beneath IHqueue] using rev_ind;
      intros collected.
    + exists 1%nat. discriminate.
    + apply Forall_app in Hqueue. destruct Hqueue as [Hbeneath Hcurrent].
      inversion Hcurrent as [| ? ? Hcur _]; subst.
      specialize (IHqueue Hbeneath).
      destruct (Fs.readdir fsys (world fsys st) current) as [e | entries]
        eqn:Hread.
      * exists 1%nat. rewrite gatherLoop_round, Hread. discriminate.
      * set (subs := subdirectories path current entries).
        set (collected1 :=
               (collected
                ++ supportedFiles path current extensionSet entries)%list).
        assert (Hsubs : Forall (fun d => (rank d < bound)%nat) subs).
        { apply Forall_forall. intros sub Hsub.
          specialize (Hrank current entries sub Hread Hsub). lia. }
        destruct (IHbound subs Hsubs collected1) as [fuel1 Hfuel1].
        pose proof (gatherLoop_stack fuel1 st beneath subs collected1)
          as Hstack.
        destruct (fst (gatherLoop fsys path fuel1 extensionSet subs
                                  collected1 st))
          as [collected2 | f |] eqn:Hrun1; [| | now contradiction Hfuel1].
        -- destruct (IHqueue collected2) as [fuel2 Hfuel2].
           exists (S (fuel1 + fuel2)).
           rewrite gatherLoop_round, Hread.
           fold subs collected1. now rewrite (Hstack fuel2 Hfuel2).
        -- exists (S (fuel1 + 0)).
           rewrite gatherLoop_round, Hread.
           fold subs collected1. rewrite (Hstack 0%nat). discriminate.
Qed.

(** X12.  When the directories below [dirPath] can be ranked so that every
    directory listed in another (and not a symbolic link) has a smaller
    rank, [gatherFiles] completes: some amount of fuel suffices, and so
    does any larger amount. *)
Theorem gatherFiles_terminates (dirPath : string) (w : Fs.World fsys)
        (rank : string -> nat) :
  (forall dir entries sub,
      Fs.readdir fsys w dir = inr entries ->
      In sub (subdirectories path dir entries) ->
      (rank sub < rank dir)%nat) ->
  exists fuel,
    forall extra,
      filesUnder fsys path (fuel + extra) dirPath extensionSet w
      <> OutOfFuel.
Proof.
  intros Hrank. unfold filesUnder, gatherFiles.
  set (st := {| world := w; summary := createEmptySummary dirPath None |}).
  destruct (gatherLoop_terminates st rank Hrank (S (rank dirPath))
              [dirPath]) with (collected := @nil string)
    as [fuel Hfuel].
  { repeat constructor. }
  exists fuel. intros extra.
  now rewrite gatherLoop_more_fuel.
Qed.

End Gather.

(** ** More of [stripPath]; the totals *)

Section StripPathFiles.

Variable fsys : Fs.t.
Variable path : Path.t.
Variable parse : Parser.

Lemma resolveOutputForFile_directory (filePath : string)
      (outPath : option string) (out : string) (stats : Stats.t)
      (st : State fsys) :
  truthy outPath = Some out ->
  Fs.stat fsys (world fsys st) (Path.resolve path out) = inr stats ->
  Stats.isDirectory stats = true ->
  resolveOutputForFile fsys path filePath outPath st
  = (Done (Path.join path (Path.resolve path out)
                     (Path.basename path filePath), true), st).
Proof.
  intros Hout Hstat Hdir.
  unfold resolveOutputForFile, bind, statIfExists, ret.
  now rewrite Hout, Hstat, Hdir.
Qed.

(** X13.  A file on which the parser throws under every plugin set is left
    alone: [stripPath] throws the error of [stripCommentsFromCode], whose
    message names the resolved path of the file and carries the message of
    the last attempt, and the file system is as before. *)
Theorem stripPath_parse_failure (fuel : nat) (targetPath : option string)
        (t source : string) (options : StripOptions) (stats : Stats.t)
        (set : StringSet) (w : Fs.World fsys) :
  truthy targetPath = Some t ->
  truthy (outPath options) = None ->
  dryRun options || overwrite options = true ->
  Fs.stat fsys w (Path.resolve path t) = inr stats ->
  Stats.isDirectory stats = false ->
  Stats.isFile stats = true ->
  buildExtensionSet (extensions options) = inr set ->
  hasSupportedExtension path (Path.resolve path t) set = true ->
  Fs.readFile fsys w (Path.resolve path t) = inr source ->
  Forall (fails parse source)
         (pluginSetsOf {| filename := Some (Path.resolve path t);
                          plugins := parserPlugins options |}) ->
  exists lastE,
    parse source
          (last (pluginSetsOf {| filename := Some (Path.resolve path t);
                                 plugins := parserPlugins options |}) [])
    = Threw lastE
    /\ stripPath fsys path parse fuel targetPath options w
       = (Raised (Js (Error ("Failed to parse " ++ Path.resolve path t
                               ++ ": " ++ messageOf (Some lastE))
                            (Some lastE))),
          w).
Proof.
  intros Htarget Hout Hallowed Hstat Hdir Hfile Hset Hext Hread Hfails.
  destruct (resolve_all_fail parse source _ Hfails)
    as (lastE & Hlast & Hstate).
  exists lastE. split; [exact Hlast |].
  unfold stripPath.
  rewrite Htarget, Hout, Hstat, Hset, Hdir, Hfile, Hext.
  replace (negb (dryRun options) && negb (overwrite options) && true)
    with false
    by (destruct (dryRun options), (overwrite options);
        simpl in *; congruence).
  cbn [negb].
  unfold resolveOutputForFile. cbn [truthy].
  unfold bind at 1. unfold ret at 1. cbn [fst snd].
  run_file. rewrite Hread. cbn [world summary fst snd].
  cbn [stripCommentsFromCode]. rewrite Hstate.
  reflexivity.
Qed.

(** X14.  With an output path that is an existing directory, a single file is
    written into that directory under its own base name whether or not
    anything was removed from it, provided nothing exists there yet. *)
Theorem stripPath_into_directory (fuel : nat) (targetPath : option string)
        (t out source : string) (options : StripOptions)
        (stats outStats : Stats.t) (missing : FsError) (set : StringSet)
        (r : StripResult) (w w1 w2 : Fs.World fsys) :
  let file := Path.resolve path t in
  let outDir := Path.resolve path (Path.resolve path out) in
  let dest := Path.join path outDir (Path.basename path file) in
  truthy targetPath = Some t ->
  truthy (outPath options) = Some out ->
  Path.resolve path out <> "" ->
  dryRun options = false ->
  Fs.stat fsys w file = inr stats ->
  Stats.isDirectory stats = false ->
  Stats.isFile stats = true ->
  buildExtensionSet (extensions options) = inr set ->
  hasSupportedExtension path file set = true ->
  Fs.stat fsys w outDir = inr outStats ->
  Stats.isDirectory outStats = true ->
  Fs.readFile fsys w file = inr source ->
  completion (stripCommentsFromCode parse (JsString source)
                {| filename := Some file;
                   plugins := parserPlugins options |})
  = Return r ->
  Fs.stat fsys w dest = inl missing ->
  errorCode missing = "ENOENT" ->
  Fs.mkdir fsys w (Path.dirname path dest) = inr w1 ->
  Fs.writeFile fsys w1 dest (code r) = inr w2 ->
  exists s,
    stripPath fsys path parse fuel targetPath options w = (Done s, w2)
    /\ results s
       = [ {| FileResult.inputPath := file;
              FileResult.outputPath := dest;
              FileResult.commentCount := commentCount r;
              FileResult.removedChars := removedChars r;
              FileResult.removedRanges := removedRanges r;
              FileResult.changed := negb (String.eqb (code r) source);
              FileResult.wroteFile := true |} ].
Proof.
  intros file outDir dest Htarget Hout Hne Hdry Hstat Hdir Hfile Hset Hext
         HoutStat HoutDir Hread Hstrip Hmissing Hcode Hmkdir Hwrite.
  subst file outDir dest.
  unfold stripPath.
  rewrite Htarget, Hout, Hdry, Hstat, Hset, Hdir, Hfile, Hext.
  rewrite andb_false_r. cbn [negb].
  assert (Htruthy : truthy (Some (Path.resolve path out))
                    = Some (Path.resolve path out)).
  { unfold truthy. destruct (Path.resolve path out); [congruence |].
    reflexivity. }
  unfold bind at 1.
  rewrite (resolveOutputForFile_directory
             _ _ _ outStats
             {| world := w;
                summary := createEmptySummary
                             (Path.resolve path t)
                             (Some (Path.resolve path out)) |}
             Htruthy HoutStat HoutDir).
  cbn [fst snd].
  run_file. rewrite Hread. cbn [world summary fst snd]. rewrite Hstrip.
  rewrite !orb_true_r. cbn [andb negb world summary].
  rewrite Hmissing, Hcode. rewrite ?String.eqb_refl.
  cbn [String.eqb Ascii.eqb Bool.eqb andb world summary].
  rewrite Hmkdir. cbn [world summary]. rewrite Hwrite.
  eexists. split; [reflexivity |].
  unfold countRemoved. now destruct (0 <? commentCount r).
Qed.

End StripPathFiles.

Lemma combineSummaries_from (summaries : list Summary) :
  forall acc,
    let total :=
      fold_left
        (fun acc s =>
           {| Totals.filesScanned :=
                Totals.filesScanned acc + filesScanned s;
              Totals.filesChanged :=
                Totals.filesChanged acc + filesChanged s;
              Totals.commentsRemoved :=
                Totals.commentsRemoved acc + commentsRemoved s;
              Totals.bytesRemoved :=
                Totals.bytesRemoved acc + bytesRemoved s |})
        summaries acc in
    Totals.filesScanned total
    = Totals.filesScanned acc
      + fold_right (fun s n => filesScanned s + n) 0 summaries
    /\ Totals.filesChanged total
       = Totals.filesChanged acc
         + fold_right (fun s n => filesChanged s + n) 0 summaries
    /\ Totals.commentsRemoved total
       = Totals.commentsRemoved acc
         + fold_right (fun s n => commentsRemoved s + n) 0 summaries
    /\ Totals.bytesRemoved total
       = Totals.bytesRemoved acc
         + fold_right (fun s n => bytesRemoved s + n) 0 summaries.
Proof.
  induction summaries as [| s summaries IH]; intros acc; simpl.
  - repeat split; lia.
  - destruct (IH {| Totals.filesScanned :=
                      Totals.filesScanned acc + filesScanned s;
                    Totals.filesChanged :=
                      Totals.filesChanged acc + filesChanged s;
                    Totals.commentsRemoved :=
                      Totals.commentsRemoved acc + commentsRemoved s;
                    Totals.bytesRemoved :=
                      Totals.bytesRemoved acc + bytesRemoved s |})
      as (H1 & H2 & H3 & H4).
    simpl in *. repeat split; lia.
Qed.

(** X15.  The totals the command line prints for several targets agree with the
    results of all their summaries taken together, when each summary agrees
    with its own results (as those of [stripPath] do): the files scanned
    are all the results, the files changed those with comments, and the
    comments and bytes removed the sums over all results. *)
Theorem combineSummaries_results (summaries : list Summary) :
  Forall consistent summaries ->
  let every := flat_map results summaries in
  let totals := combineSummaries summaries in
  Totals.filesScanned totals = Z.of_nat (List.length every)
  /\ Totals.filesChanged totals = countChanged every
  /\ Totals.commentsRemoved totals = sumOver FileResult.commentCount every
  /\ Totals.bytesRemoved totals = sumOver FileResult.removedChars every.
Proof.
  intros Hall every totals. subst every totals. unfold combineSummaries.
  destruct (combineSummaries_from summaries
              {| Totals.filesScanned := 0; Totals.filesChanged := 0;
                 Totals.commentsRemoved := 0; Totals.bytesRemoved := 0 |})
    as (H1 & H2 & H3 & H4).
  cbv zeta in *. rewrite H1, H2, H3, H4. cbn [Totals.filesScanned
    Totals.filesChanged Totals.commentsRemoved Totals.bytesRemoved].
  clear H1 H2 H3 H4.
  induction Hall as [| s summaries [Hs Hc Hm Hb] _ IH]; simpl.
  - repeat split.
  - rewrite length_app, countChanged_app, !sumOver_app.
    destruct IH as (I1 & I2 & I3 & I4).
    repeat split; lia.
Qed.

(** ** More of [stripCommentsFromCode] *)

Section StripMore.

Variable parse : Parser.

(** X16.  No range is lost or invented by the normalisation: [removedRanges] is a
    rearrangement of the ranges of the comments that have numeric
    positions with [start < end]. *)
Theorem removedRanges_permutation (source : string)
        (parserOptions : ParserOptions) (tree : Ast) (r : StripResult) :
  ast (resolve parse source parserOptions) = Some tree ->
  completion (stripCommentsFromCode parse (JsString source) parserOptions)
  = Return r ->
  Permutation (validRanges (commentsOf tree)) (removedRanges r).
Proof.
  intros Htree Hrun.
  rewrite (strip_resolved parse source parserOptions tree Htree) in Hrun.
  injection Hrun as <-. cbn [removedRanges].
  apply sortByStart_perm.
Qed.

(** X17.  When the reported ranges start at or after 0 and do not overlap, the
    returned text is the source without exactly the characters of the
    reported ranges. *)
Theorem code_without_removedRanges (source : string)
        (parserOptions : ParserOptions) (r : StripResult) :
  completion (stripCommentsFromCode parse (JsString source) parserOptions)
  = Return r ->
  Forall (fun x => 0 <= start x) (removedRanges r) ->
  ForallOrdPairs disjoint (removedRanges r) ->
  code r = without (removedRanges r) source.
Proof.
  intros Hrun.
  destruct (strip_return_inv parse source parserOptions r Hrun)
    as [tree Htree].
  rewrite (strip_resolved parse source parserOptions tree Htree) in Hrun.
  cbv zeta in Hrun.
  set (ranges := normalizeRanges (commentsOf tree)) in Hrun.
  assert (Hwf : Forall wellFormed ranges)
    by apply normalizeRanges_wellFormed.
  rewrite (removeRanges_excised source ranges Hwf) in Hrun.
  injection Hrun as <-.
  cbn [code removedRanges fst].
  intros Hnonneg Hdisjoint.
  rewrite excised_disjoint; try assumption; [reflexivity |].
  apply sortByStart_sorted.
Qed.

(** X18.  With plugins given by the caller there is no search: the parser is
    called once, with those plugins, and its failure is the failure of the
    call. *)
Theorem custom_plugins_single_attempt (source : string)
        (f : option string) (customPlugins : list Plugin) :
  let parserOptions :=
    {| filename := f; plugins := Some customPlugins |} in
  let run := stripCommentsFromCode parse (JsString source) parserOptions in
  calls run = [customPlugins]
  /\ match parse source customPlugins with
     | Parsed tree => exists r, completion run = Return r
     | Threw error =>
         completion run
         = Throw (Error ("Failed to parse " ++ fileLabel parserOptions
                           ++ ": " ++ messageOf (Some error))
                        (Some error))
     end.
Proof.
  intros parserOptions run. subst run parserOptions.
  rewrite strip_calls.
  unfold stripCommentsFromCode, resolve, pluginSetsOf.
  cbn [plugins tryPluginSets attempted ast lastError app].
  destruct (parse source customPlugins) as [tree | error].
  - split; [reflexivity |]. cbn [ast attempted].
    destruct (commentsOf tree) as [| c cs]; [eexists; reflexivity |].
    destruct (removeRanges source (normalizeRanges (c :: cs))).
    eexists; reflexivity.
  - split; reflexivity.
Qed.

End StripMore.

(** ** Completion of [stripPath] *)

Section Completion.

Variable fsys : Fs.t.
Variable path : Path.t.
Variable parse : Parser.

Lemma bind_completes {A B : Type} (m : M fsys A) (k : A -> M fsys B)
      (st : State fsys) :
  fst (m st) <> OutOfFuel ->
  (forall a st1, m st = (Done a, st1) -> fst (k a st1) <> OutOfFuel) ->
  fst (bind fsys m k st) <> OutOfFuel.
Proof.
  unfold bind. intros Hm Hk.
  destruct (m st) as [[a | f |] st1]; cbn [fst] in *;
    [now apply Hk | discriminate | now contradiction Hm].
Qed.

Lemma reading_completes {A : Type} (op : Fs.World fsys -> FsError + A)
      (st : State fsys) :
  fst (reading fsys op st) <> OutOfFuel.
Proof. unfold reading. destruct (op (world fsys st)); discriminate. Qed.

Lemma writing_completes (op : Fs.World fsys -> FsError + Fs.World fsys)
      (st : State fsys) :
  fst (writing fsys op st) <> OutOfFuel.
Proof. unfold writing. destruct (op (world fsys st)); discriminate. Qed.

Lemma statIfExists_completes (fsPath : string) (st : State fsys) :
  fst (statIfExists fsys fsPath st) <> OutOfFuel.
Proof.
  unfold statIfExists.
  destruct (Fs.stat fsys (world fsys st) fsPath) as [e | stats];
    [| discriminate].
  destruct (String.eqb (errorCode e) "ENOENT"); discriminate.
Qed.

Lemma resolveOutputForFile_completes (filePath : string)
      (outPath : option string) (st : State fsys) :
  fst (resolveOutputForFile fsys path filePath outPath st) <> OutOfFuel.
Proof.
  unfold resolveOutputForFile.
  destruct (truthy outPath) as [out |]; [| discriminate].
  apply bind_completes; [apply statIfExists_completes |].
  intros outStats st1 _.
  match goal with
  | |- context [if ?b then _ else _] => destruct b
  end; discriminate.
Qed.

Lemma processFile_completes (inputPath : string)
      (outputPath : option string) (dryRun overwrite : bool)
      (parserPlugins : option (list Plugin)) (alwaysWrite : bool)
      (st : State fsys) :
  fst (processFile fsys path parse inputPath outputPath dryRun overwrite
                   parserPlugins alwaysWrite st)
  <> OutOfFuel.
Proof.
  unfold processFile.
  apply bind_completes; [discriminate |]. intros _ st1 _.
  apply bind_completes; [apply reading_completes |]. intros source st2 _.
  apply bind_completes.
  { unfold strip.
    destruct (completion (stripCommentsFromCode parse (JsString source) _));
      discriminate. }
  intros r st3 _.
  apply bind_completes.
  - match goal with
    | |- context [if ?b then _ else _] => destruct b
    end; [| discriminate].
    apply bind_completes.
    { unfold pathExists. apply bind_completes;
        [apply statIfExists_completes | discriminate]. }
    intros destinationExists st4 _.
    apply bind_completes.
    { destruct (destinationExists && negb overwrite); [| discriminate].
      destruct (String.eqb _ _); discriminate. }
    intros _ st5 _.
    apply bind_completes; [apply writing_completes |].
    intros _ st6 _. apply writing_completes.
  - intros _ st4 _.
    apply bind_completes; discriminate.
Qed.

Lemma processFiles_completes (dirPath : string)
      (outputBase : option string) (dryRun overwrite : bool)
      (parserPlugins : option (list Plugin)) (files : list string) :
  forall st,
    fst (processFiles fsys path parse dirPath outputBase dryRun overwrite
                      parserPlugins files st)
    <> OutOfFuel.
Proof.
  induction files as [| f files IH]; intros st; simpl; [discriminate |].
  apply bind_completes; [apply processFile_completes |].
  intros _ st1 _. apply IH.
Qed.

Lemma processDirectory_completes (fuel : nat) (dirPath : string)
      (outputBase : option string) (dryRun overwrite : bool)
      (extensionSet : StringSet) (parserPlugins : option (list Plugin))
      (st : State fsys) :
  fst (gatherFiles fsys path fuel dirPath extensionSet st) <> OutOfFuel ->
  fst (processDirectory fsys path parse fuel dirPath outputBase dryRun
                        overwrite extensionSet parserPlugins st)
  <> OutOfFuel.
Proof.
  intros Hgather. unfold processDirectory.
  apply bind_completes.
  - destruct (truthy outputBase) as [base |]; [| discriminate].
    apply bind_completes; [apply statIfExists_completes |].
    intros [stats |] st1 _; [| discriminate].
      destruct (negb (Stats.isDirectory stats)); discriminate.
  - intros [] st1 Hcheck.
    assert (Hst1 : st1 = st).
    { pose proof (keepsState_outputCheck fsys outputBase st) as Hkeep.
      rewrite Hcheck in Hkeep. exact Hkeep. }
    subst st1.
    apply bind_completes; [exact Hgather |].
    intros files st2 _. apply processFiles_completes.
Qed.

(** X19.  [stripPath] completes on every tree of finite depth: when the
    directories can be ranked so that every directory listed in another
    (and not a symbolic link) has a smaller rank, there is an amount of
    fuel from which on [stripPath] returns its summary or throws. *)
Theorem stripPath_completes (targetPath : option string)
        (options : StripOptions) (w : Fs.World fsys)
        (rank : string -> nat) :
  (forall dir entries sub,
      Fs.readdir fsys w dir = inr entries ->
      In sub (subdirectories path dir entries) ->
      (rank sub < rank dir)%nat) ->
  exists fuel,
    forall extra,
      fst (stripPath fsys path parse (fuel + extra) targetPath options w)
      <> OutOfFuel.
Proof.
  intros Hrank.
  destruct (truthy targetPath) as [t |] eqn:Htarget.
  2: { exists 0%nat. intros extra. unfold stripPath. rewrite Htarget.
       discriminate. }
  destruct (buildExtensionSet (extensions options)) as [exn | set] eqn:Hset.
  { exists 0%nat. intros extra. unfold stripPath. rewrite Htarget, Hset.
    destruct (negb (dryRun options) && negb (overwrite options) && _);
      [discriminate |].
    destruct (Fs.stat fsys w (Path.resolve path t)) as [e | stats];
      [| discriminate].
    destruct (String.eqb (errorCode e) "ENOENT"); discriminate. }
  destruct (gatherLoop_terminates
              fsys path set
              {| world := w;
                 summary := createEmptySummary (Path.resolve path t) None |}
              rank Hrank (S (rank (Path.resolve path t)))
              [Path.resolve path t])
    with (collected := @nil string) as [fuel Hfuel].
  { repeat constructor. }
  exists fuel. intros extra. unfold stripPath. rewrite Htarget, Hset.
  destruct (negb (dryRun options) && negb (overwrite options) && _);
    [discriminate |].
  destruct (Fs.stat fsys w (Path.resolve path t)) as [e | stats].
  { destruct (String.eqb (errorCode e) "ENOENT"); discriminate. }
  match goal with
  | |- fst (match ?body ?init with _ => _ end) <> _ =>
      assert (Hbody : fst (body init) <> OutOfFuel);
      [| destruct (body init) as [[[] | f |] st];
         cbn [fst] in *;
         [discriminate | discriminate | now contradiction Hbody]]
  end.
  destruct (Stats.isDirectory stats).
  - apply processDirectory_completes. unfold gatherFiles.
    rewrite (gatherLoop_summary fsys path (fuel + extra) set
               [Path.resolve path t] [] w _
               (createEmptySummary (Path.resolve path t) None)).
    now rewrite gatherLoop_more_fuel.
  - destruct (Stats.isFile stats); [| discriminate].
    destruct (negb (hasSupportedExtension path _ set)); [discriminate |].
    apply bind_completes; [apply resolveOutputForFile_completes |].
    intros outInfo st1 _. apply processFile_completes.
Qed.

End Completion.

(** * The file layer on concrete runs *)

Lemma buildExtensionSet_normal_form_witness :
  NoDup [".js"; ".ts"]
  /\ Forall normalEntry [".js"; ".ts"]
  /\ buildExtensionSet (ExtensionArray [".js"; ".ts"])
     = inr [".js"; ".ts"].
Proof.
  apply (buildExtensionSet_normal_form (ExtensionList " JS, .ts ,,")).
  - intros ready. discriminate.
  - vm_compute. reflexivity.
Defined.

Lemma extension_selected_witness :
  hasSupportedExtension DemoFs.path "/p/sub/b.TS" [".js"; ".ts"] = true
  <-> exists e,
      In e [" JS"; ".ts "] /\ ~ blank e
      /\ toLowerCase (Path.extname DemoFs.path "/p/sub/b.TS")
         = withDot (normalizeExtension e).
Proof.
  apply (extension_selected DemoFs.path [" JS"; ".ts "] [".js"; ".ts"]).
  vm_compute. reflexivity.
Defined.

Lemma extension_set_verbatim_witness :
  buildExtensionSet (ExtensionSet [".JS"]) = inr [".JS"]
  /\ hasSupportedExtension DemoFs.path "/p/a.JS" [".JS"] = false.
Proof.
  apply (extension_set_verbatim DemoFs.path [".JS"] "/p/a.JS").
  repeat constructor.
Defined.

Lemma processFile_keeps_existing_witness :
  world DemoFs.fs
        (snd (processFile DemoFs.fs DemoFs.path Demo.parse "/p/a.js"
                          (Some "/p/sub/b.TS") false false None true
                          DemoFs.start))
  = DemoFs.project.
Proof.
  apply (processFile_keeps_existing
           DemoFs.fs DemoFs.path Demo.parse "/p/a.js" (Some "/p/sub/b.TS")
           false None true DemoFs.start DemoFs.regularFile).
  vm_compute. reflexivity.
Defined.

Lemma stripPath_leaves_files_alone_witness :
  snd (stripPath DemoFs.fs DemoFs.path Demo.parse 10 (Some "/p")
                 DemoFs.dry DemoFs.project)
  = DemoFs.project.
Proof.
  apply (stripPath_leaves_files_alone
           DemoFs.fs DemoFs.path Demo.parse 10 (Some "/p") DemoFs.dry
           DemoFs.project).
  left. reflexivity.
Defined.

Lemma stripPath_summary_witness :
  exists s,
    stripPath DemoFs.fs DemoFs.path Demo.parse 10 (Some "/p") DemoFs.dry
              DemoFs.project
    = (Done s, DemoFs.project)
    /\ filesScanned s = 2
    /\ consistent s.
Proof.
  eexists. split; [vm_compute; reflexivity |].
  split; [reflexivity |].
  eapply (stripPath_summary DemoFs.fs DemoFs.path Demo.parse 10
                            (Some "/p") DemoFs.dry DemoFs.project).
  vm_compute. reflexivity.
Defined.

Lemma stripPath_directory_results_witness :
  exists s set files,
    stripPath DemoFs.fs DemoFs.path Demo.parse 10 (Some "/p") DemoFs.dry
              DemoFs.project
    = (Done s, DemoFs.project)
    /\ buildExtensionSet NoExtensions = inr set
    /\ filesUnder DemoFs.fs DemoFs.path 10 "/p" set DemoFs.project
       = Done files
    /\ map FileResult.inputPath (results s) = files
    /\ filesScanned s = Z.of_nat (List.length files).
Proof.
  eexists.
  assert (Hrun : stripPath DemoFs.fs DemoFs.path Demo.parse 10 (Some "/p")
                           DemoFs.dry DemoFs.project
                 = (Done _, DemoFs.project))
    by (vm_compute; reflexivity).
  destruct (stripPath_directory_results
              DemoFs.fs DemoFs.path Demo.parse 10 (Some "/p") "/p"
              DemoFs.dry DemoFs.aDirectory DemoFs.project DemoFs.project
              _ eq_refl eq_refl eq_refl Hrun)
    as (set & files & H).
  exists set, files. split; [exact Hrun | exact H].
Defined.

Lemma stripPath_no_comment_no_write_witness :
  exists s,
    stripPath DemoFs.fs DemoFs.path Demo.parse 10 (Some "/p/sub/b.TS")
              DemoFs.inPlace DemoFs.project
    = (Done s, DemoFs.project)
    /\ filesScanned s = 1
    /\ filesChanged s = 0
    /\ results s
       = [ {| FileResult.inputPath := "/p/sub/b.TS";
              FileResult.outputPath := "/p/sub/b.TS";
              FileResult.commentCount := 0;
              FileResult.removedChars := 0;
              FileResult.removedRanges := [];
              FileResult.changed := false;
              FileResult.wroteFile := false |} ].
Proof.
  apply (stripPath_no_comment_no_write
           DemoFs.fs DemoFs.path Demo.parse 10 (Some "/p/sub/b.TS")
           "/p/sub/b.TS" "let x = 1;" DemoFs.inPlace DemoFs.regularFile
           (newSet SUPPORTED_EXTENSIONS) DemoFs.unchanged DemoFs.project);
    vm_compute; reflexivity.
Defined.

Lemma stripPath_writes_stripped_text_witness :
  exists s,
    stripPath DemoFs.fs DemoFs.path Demo.parse 10 (Some "/p/a.js")
              DemoFs.inPlace DemoFs.project
    = (Done s,
       ("/p/a.js", DemoFs.FileNode "a  c ") :: DemoFs.project)
    /\ results s
       = [ {| FileResult.inputPath := "/p/a.js";
              FileResult.outputPath := "/p/a.js";
              FileResult.commentCount := 2;
              FileResult.removedChars := 11;
              FileResult.removedRanges := [mkRange 2 9; mkRange 12 16];
              FileResult.changed := true;
              FileResult.wroteFile := true |} ].
Proof.
  apply (stripPath_writes_stripped_text
           DemoFs.fs DemoFs.path Demo.parse 10 (Some "/p/a.js") "/p/a.js"
           Runs.sample DemoFs.inPlace DemoFs.regularFile
           (newSet SUPPORTED_EXTENSIONS) Runs.sampleResult DemoFs.project
           DemoFs.project
           (("/p/a.js", DemoFs.FileNode "a  c ") :: DemoFs.project));
    try (vm_compute; reflexivity).
  vm_compute. discriminate.
Defined.

Lemma stripPath_parse_failure_witness :
  exists lastE,
    Demo.parse Runs.broken (last DEFAULT_PLUGIN_SETS []) = Threw lastE
    /\ stripPath DemoFs.fs DemoFs.path Demo.parse 10 (Some "/broken.js")
                 DemoFs.inPlace DemoFs.project
       = (Raised (Js (Error ("Failed to parse " ++ "/broken.js" ++ ": "
                               ++ messageOf (Some lastE))
                            (Some lastE))),
          DemoFs.project).
Proof.
  apply (stripPath_parse_failure
           DemoFs.fs DemoFs.path Demo.parse 10 (Some "/broken.js")
           "/broken.js" Runs.broken DemoFs.inPlace DemoFs.regularFile
           (newSet SUPPORTED_EXTENSIONS) DemoFs.project);
    try (vm_compute; reflexivity).
  repeat constructor; eexists; vm_compute; reflexivity.
Defined.

Lemma stripPath_into_directory_witness :
  exists s,
    stripPath DemoFs.fs DemoFs.path Demo.parse 10 (Some "/p/sub/b.TS")
              (DemoFs.into "/out") DemoFs.project
    = (Done s,
       ("/out/b.TS", DemoFs.FileNode "let x = 1;") :: DemoFs.project)
    /\ results s
       = [ {| FileResult.inputPath := "/p/sub/b.TS";
              FileResult.outputPath := "/out/b.TS";
              FileResult.commentCount := 0;
              FileResult.removedChars := 0;
              FileResult.removedRanges := [];
              FileResult.changed := false;
              FileResult.wroteFile := true |} ].
Proof.
  apply (stripPath_into_directory
           DemoFs.fs DemoFs.path Demo.parse 10 (Some "/p/sub/b.TS")
           "/p/sub/b.TS" "/out" "let x = 1;" (DemoFs.into "/out")
           DemoFs.regularFile DemoFs.aDirectory (DemoFs.failure "ENOENT")
           (newSet SUPPORTED_EXTENSIONS) DemoFs.unchanged DemoFs.project
           DemoFs.project
           (("/out/b.TS", DemoFs.FileNode "let x = 1;") :: DemoFs.project));
    try (vm_compute; reflexivity).
  vm_compute. discriminate.
Defined.

Lemma gatherFiles_exact_witness :
  In "/p/sub/b.TS" ["/p/a.js"; "/p/sub/b.TS"]
  <-> under DemoFs.fs DemoFs.path DemoFs.project
            (newSet SUPPORTED_EXTENSIONS) "/p" "/p/sub/b.TS".
Proof.
  apply (gatherFiles_exact DemoFs.fs DemoFs.path
                           (newSet SUPPORTED_EXTENSIONS) 10 "/p"
                           DemoFs.project ["/p/a.js"; "/p/sub/b.TS"]).
  vm_compute. reflexivity.
Defined.

Lemma gatherFiles_terminates_witness :
  exists fuel,
    forall extra,
      filesUnder DemoFs.fs DemoFs.path (fuel + extra) "/p"
                 (newSet SUPPORTED_EXTENSIONS) DemoFs.project
      <> OutOfFuel.
Proof.
  apply (gatherFiles_terminates DemoFs.fs DemoFs.path
                                (newSet SUPPORTED_EXTENSIONS) "/p"
                                DemoFs.project DemoFs.rank).
  intros dir entries sub Hread Hin.
  cbn [Fs.readdir DemoFs.fs] in Hread.
  unfold DemoFs.readdir, DemoFs.project in Hread.
  cbn [DemoFs.lookup] in Hread.
  repeat match type of Hread with
         | context [String.eqb dir ?p] =>
             destruct (String.eqb_spec dir p) as [-> | _]
         end;
    try discriminate; injection Hread as <-;
    vm_compute in Hin; try contradiction.
  destruct Hin as [<- | []]. vm_compute. lia.
Defined.

Lemma combineSummaries_results_witness :
  Totals.filesScanned
    (combineSummaries [DemoFs.report; createEmptySummary "/b" None;
                       DemoFs.report])
  = 2
  /\ Totals.filesChanged
       (combineSummaries [DemoFs.report; createEmptySummary "/b" None;
                          DemoFs.report])
     = 2
  /\ Totals.commentsRemoved
       (combineSummaries [DemoFs.report; createEmptySummary "/b" None;
                          DemoFs.report])
     = 4
  /\ Totals.bytesRemoved
       (combineSummaries [DemoFs.report; createEmptySummary "/b" None;
                          DemoFs.report])
     = 22.
Proof.
  apply (combineSummaries_results
           [DemoFs.report; createEmptySummary "/b" None; DemoFs.report]).
  repeat constructor.
Defined.

Lemma removedRanges_permutation_witness :
  Permutation (validRanges [Demo.comment 2 9; Demo.comment 12 16])
              (removedRanges Runs.sampleResult).
Proof.
  apply (removedRanges_permutation
           Demo.parse Runs.sample Demo.noOptions
           {| comments := Some [Demo.comment 2 9; Demo.comment 12 16] |}
           Runs.sampleResult);
    vm_compute; reflexivity.
Defined.

Lemma code_without_removedRanges_witness :
  code Runs.sampleResult
  = without (removedRanges Runs.sampleResult) Runs.sample.
Proof.
  apply (code_without_removedRanges Demo.parse Runs.sample Demo.noOptions
                                    Runs.sampleResult).
  - vm_compute. reflexivity.
  - repeat constructor; simpl; lia.
  - repeat constructor. simpl. lia.
Defined.

Lemma stripPath_completes_witness :
  exists fuel,
    forall extra,
      fst (stripPath DemoFs.fs DemoFs.path Demo.parse (fuel + extra)
                     (Some "/p") DemoFs.dry DemoFs.project)
      <> OutOfFuel.
Proof.
  apply (stripPath_completes DemoFs.fs DemoFs.path Demo.parse (Some "/p")
                             DemoFs.dry DemoFs.project DemoFs.rank).
  intros dir entries sub Hread Hin.
  cbn [Fs.readdir DemoFs.fs] in Hread.
  unfold DemoFs.readdir, DemoFs.project in Hread.
  cbn [DemoFs.lookup] in Hread.
  repeat match type of Hread with
         | context [String.eqb dir ?p] =>
             destruct (String.eqb_spec dir p) as [-> | _]
         end;
    try discriminate; injection Hread as <-;
    vm_compute in Hin; try contradiction.
  destruct Hin as [<- | []]. vm_compute. lia.
Defined.
